(** * Gallery viewing subsystem: pagination, windowing, lightbox, gestures

  A shallow embedding of the gallery code of the public site
  (api/client.ts, api/hooks/useGalleryImagesInfinite.ts,
  hooks/useLightbox.ts, hooks/usePinchZoom.ts,
  components/features/gallery/VirtualizedGalleryGrid and
  pages/Gallery/GalleryContainer.tsx), with the properties its
  specification states about it.

  JavaScript numbers that the code uses as indices, pixel counts and
  identifiers are integers and are modelled as [Z]; the coordinates and
  distances of the gesture recognisers are real numbers, and the scale of
  the pinch recogniser is a real number, an infinity or [NaN] (the
  rounding of IEEE doubles is not modelled). State updates given to
  React are kept until React runs them. *)

From Stdlib Require Import ZArith List Lia Permutation Sorted String Ascii.
From Stdlib Require Import DecimalString Reals Lra.
From Stdlib Require DecimalPos DecimalZ.
From stdpp Require Import base option list sets sorting.

Local Open Scope Z_scope.

(** ** types/gallery.ts *)

Record GalleryImage : Type := mkImage {
  id : Z;
  cloudinary_url : string;
  caption : option string;
  display_order : Z
}.

Record PaginationMetadata : Type := mkPagination {
  next_cursor : option Z;
  has_more : bool;
  total_count : Z
}.

Record GalleryResponse : Type := mkResponse {
  images : list GalleryImage;
  pagination : PaginationMetadata
}.

(** The [data] of react-query's infinite query: the pages in the order in
    which the query stored them, with the cursor each was requested with. *)
Record InfiniteData : Type := mkInfiniteData {
  pages : list GalleryResponse;
  pageParams : list (option Z)
}.

(** ** api/client.ts *)

Module client.

Local Open Scope string_scope.

(** A value that was thrown: an [Error] with its message, or anything
    else. *)
Inductive Thrown : Type :=
| ErrorObject (message : string)
| OtherValue.

(** [errorData.detail] of an error body: a string, or an object with its
    [message] field (when it has one) and its [JSON.stringify] text. *)
Inductive Detail : Type :=
| DetailString (text : string)
| DetailObject (message : option string) (json : string).

(** The body of a response that is not ok, as [response.json()] reads it. *)
Inductive ErrorBody : Type :=
| NotJson
| JsonBody (detail : option Detail).

(** What [fetch] and [response.json()] can give the client. *)
Inductive FetchResult : Type :=
| Rejected (why : Thrown)
| NotOk (status : N) (statusText : string) (body : ErrorBody)
| OkUnreadable (message : string)
| Ok (data : GalleryResponse).

(** [`Gallery API error: ${response.status} ${response.statusText}`] *)
Definition statusMessage (status : N) (statusText : string) : string :=
  "Gallery API error: " ++ NilZero.string_of_uint (N.to_uint status)
  ++ " " ++ statusText.

(** The message of the error thrown for a response that is not ok: the
    detail's message, else the detail, else the status line. Empty strings
    are falsy. *)
Definition errorMessage (status : N) (statusText : string) (body : ErrorBody)
    : string :=
  match body with
  | JsonBody (Some (DetailObject (Some (String c m)) _)) => String c m
  | JsonBody (Some (DetailObject _ json)) => json
  | JsonBody (Some (DetailString (String c s))) => String c s
  | _ => statusMessage status statusText
  end.

(** The outer [catch]: every failure is thrown again as an [Error] whose
    message starts with [Gallery fetch failed: ]. *)
Definition rethrow (why : Thrown) : Thrown :=
  match why with
  | ErrorObject m => ErrorObject ("Gallery fetch failed: " ++ m)
  | OtherValue => ErrorObject "Gallery fetch failed: Unknown error"
  end.

(** [GalleryApiClient.fetchGalleryImages]: the data, or the error thrown. *)
Definition fetchGalleryImages (r : FetchResult) : GalleryResponse + Thrown :=
  match r with
  | Rejected why => inr (rethrow why)
  | NotOk status statusText body =>
      inr (rethrow (ErrorObject (errorMessage status statusText body)))
  | OkUnreadable m => inr (rethrow (ErrorObject m))
  | Ok data => inl data
  end.

(** The status class the retry comment speaks of: a client error. *)
Definition is4xx (status : N) : bool :=
  ((400 <=? status) && (status <? 500))%N.

End client.

(** ** api/hooks/useGalleryImagesInfinite.ts *)

Module useGalleryImagesInfinite.

(** [getNextPageParam]: the cursor of the next request, [None] when the
    last page says there is no more. *)
Definition getNextPageParam (lastPage : GalleryResponse) : option Z :=
  if has_more (pagination lastPage)
  then next_cursor (pagination lastPage)
  else None.

(** [data?.pages.flatMap(page => page.images) ?? []] *)
Definition flattenGalleryImages (data : option InfiniteData) : list GalleryImage :=
  match data with
  | Some d => flat_map images (pages d)
  | None => []
  end.

(** What the infinite query does with a page that arrived: it is stored
    after the pages already there, with the cursor it was asked with. *)
Definition addPage (data : option InfiniteData) (param : option Z)
    (page : GalleryResponse) : option InfiniteData :=
  match data with
  | Some d => Some (mkInfiniteData (pages d ++ [page]) (pageParams d ++ [param]))
  | None => Some (mkInfiniteData [page] [param])
  end.

(** [String.prototype.includes] *)
Fixpoint includes (needle s : string) : bool :=
  String.prefix needle s
  || match s with
     | String _ rest => includes needle rest
     | EmptyString => false
     end.

(** The [retry] option of the query: called with the number of failures so
    far and the error of the last one. *)
Definition retry (failureCount : Z) (error : client.Thrown) : bool :=
  match error with
  | client.ErrorObject message =>
      if includes "4" message then false else failureCount <? 3
  | client.OtherValue => failureCount <? 3
  end.

End useGalleryImagesInfinite.

(** ** The infinite query behind [useGalleryImagesInfinite] *)

Module InfiniteQuery.

Import useGalleryImagesInfinite.

(** The query as [useInfiniteQuery] keeps it for the options of the hook:
    the pages stored, the request whose answer is awaited (its number and
    its [pageParam]), and the number of requests started so far. *)
Record Query : Type := mkQuery {
  data : option InfiniteData;
  awaited : option (nat * option Z);
  issued : nat
}.

Definition init : Query := {| data := None; awaited := None; issued := 0 |}.


(** The [pageParam] of the next request: [initialPageParam], which is
    [undefined], while no page is stored, and after that
    [getNextPageParam] of the last stored page; [None] when that says that
    there is no next page. *)
Definition nextPageParam (data : option InfiniteData)
    : option (option Z) :=
  match data with
  | None => Some None
  | Some d =>
      match last (pages d) with
      | Some lastPage => Some <$> getNextPageParam lastPage
      | None => Some None
      end
  end.

(** What happens to the query: the fetch of the mounted query or a call
    of [fetchNextPage]; the answer to a request arrives; a request fails
    for good. *)
Inductive Event : Type :=
| Fetch
| Answer (request : nat)
| Failure (request : nat).

(** One event. [server] is the backend: the page it answers each cursor
    with. A fetch asks for the page after the last stored one, and takes
    the place of a request under way (during the first load it joins it);
    only the answer to the awaited request is stored, after the pages
    already there. *)
Definition step (server : option Z -> GalleryResponse) (q : Query)
    (ev : Event) : Query :=
  match ev with
  | Fetch =>
      match nextPageParam (data q) with
      | None => q
      | Some pageParam =>
          match awaited q, data q with
          | Some _, None => q
          | _, _ =>
              {| data := data q;
                 awaited := Some (issued q, pageParam);
                 issued := S (issued q) |}
          end
      end
  | Answer request =>
      match awaited q with
      | Some (r, pageParam) =>
          if (request =? r)%nat
          then {| data := addPage (data q) pageParam (server pageParam);
                  awaited := None;
                  issued := issued q |}
          else q
      | None => q
      end
  | Failure request =>
      match awaited q with
      | Some (r, _) =>
          if (request =? r)%nat
          then {| data := data q; awaited := None; issued := issued q |}
          else q
      | None => q
      end
  end.

Definition run (server : option Z -> GalleryResponse) (evs : list Event)
    (q : Query) : Query :=
  fold_left (step server) evs q.



End InfiniteQuery.

(** ** hooks/useLightbox.ts *)

Module useLightbox.

(** A reference to a DOM element; only its identity matters. *)
Definition HTMLElement : Type := nat.

(** The state the hook keeps between renders: the two [useState] cells
    and the [triggerElementRef]. *)
Record State : Type := mkState {
  isOpen : bool;
  currentIndex : Z;
  triggerElement : option HTMLElement
}.

(** [useState(false)], [useState(initialIndex)], [useRef(null)] *)
Definition init (initialIndex : Z) : State :=
  {| isOpen := false; currentIndex := initialIndex; triggerElement := None |}.

(** The first argument of [open]: [GalleryImage | number]. *)
Inductive ImageOrIndex : Type :=
| ByIndex (index : Z)
| ByImage (image : GalleryImage).

Section WithImages.
Variable imgs : list GalleryImage.

(** [images.length] *)
Definition len : Z := Z.of_nat (length imgs).

(** [images[currentIndex] || null] *)
Definition currentImage (st : State) : option GalleryImage :=
  if currentIndex st <? 0 then None else imgs !! Z.to_nat (currentIndex st).

Definition hasNext (st : State) : bool := currentIndex st <? len - 1.
Definition hasPrevious (st : State) : bool := 0 <? currentIndex st.

(** [images.findIndex(img => img.id === target)], [-1] when absent *)
Definition findIndex (target : Z) : Z :=
  match list_find (fun img => id img = target) imgs with
  | Some (k, _) => Z.of_nat k
  | None => -1
  end.

(** [open(imageOrIndex, triggerElement)]; [activeElement] is
    [document.activeElement] when it is an [HTMLElement]. *)
Definition open (imageOrIndex : ImageOrIndex)
    (trigger activeElement : option HTMLElement) (st : State) : State :=
  let stored :=
    match trigger with
    | Some t => Some t
    | None => activeElement
    end in
  let index :=
    match imageOrIndex with
    | ByIndex n => Z.max 0 (Z.min n (len - 1))
    | ByImage image =>
        let index := findIndex (id image) in
        if negb (index =? -1) then index else len
    end in
  {| isOpen := true; currentIndex := index; triggerElement := stored |}.

(** [close()]: the synchronous part; the trigger stays in the ref until
    the zero-delay timer runs. *)
Definition close (st : State) : State :=
  {| isOpen := false; currentIndex := currentIndex st;
     triggerElement := triggerElement st |}.

(** The timer set by [close]: the element that receives focus, if it is
    still in the document, and the state with the ref cleared. *)
Definition restoreFocus (attached : HTMLElement -> bool) (st : State)
    : option HTMLElement * State :=
  (match triggerElement st with
   | Some t => if attached t then Some t else None
   | None => None
   end,
   {| isOpen := isOpen st; currentIndex := currentIndex st;
      triggerElement := None |}).

Definition setCurrentIndex (index : Z) (st : State) : State :=
  {| isOpen := isOpen st; currentIndex := index;
     triggerElement := triggerElement st |}.

Definition goTo (index : Z) (st : State) : State :=
  setCurrentIndex (Z.max 0 (Z.min index (len - 1))) st.

(** JavaScript's [%] is the truncated remainder, [Z.rem]. *)
Definition goToNext (st : State) : State :=
  if len =? 0 then st
  else setCurrentIndex (Z.rem (currentIndex st + 1) len) st.

Definition goToPrevious (st : State) : State :=
  if len =? 0 then st
  else setCurrentIndex (Z.rem (currentIndex st - 1 + len) len) st.

(** The calls a client of the hook can make. *)
Inductive Call : Type :=
| COpen (imageOrIndex : ImageOrIndex) (trigger activeElement : option HTMLElement)
| CClose
| CGoTo (index : Z)
| CGoToNext
| CGoToPrevious.

Definition call (c : Call) (st : State) : State :=
  match c with
  | COpen a t e => open a t e st
  | CClose => close st
  | CGoTo i => goTo i st
  | CGoToNext => goToNext st
  | CGoToPrevious => goToPrevious st
  end.

(** The index selects an image of the Collection. *)
Definition validIndex (st : State) : Prop := 0 <= currentIndex st < len.

(** A call that does not open the lightbox on an image outside the
    Collection. *)
Definition knownCall (c : Call) : Prop :=
  match c with
  | COpen (ByImage image) _ _ => id image ∈ (id <$> imgs)
  | _ => True
  end.

(** The state after a sequence of calls, first call first. *)
Definition run (cs : list Call) (st : State) : State :=
  fold_left (fun s c => call c s) cs st.

End WithImages.

End useLightbox.

(** ** components/features/gallery/VirtualizedGalleryGrid *)

Module VirtualizedGalleryGrid.

Definition VIEWPORT_BUFFER : Z := 1000.
Definition itemHeight : Z := 300.

(** The [visibleRange] state; [end_] is the source's [end]. *)
Record Range : Type := mkRange {
  start : Z;
  end_ : Z
}.

(** [useState({ start: 0, end: 50 })] *)
Definition initialState : Range := {| start := 0; end_ := 50 |}.

(** [window.innerWidth > 1024 ? 3 : window.innerWidth > 768 ? 2 : 1] *)
Definition itemsPerRow (innerWidth : Z) : Z :=
  if 1024 <? innerWidth then 3
  else if 768 <? innerWidth then 2
  else 1.

(** [Math.ceil(a / b)] for integers [a] and [b > 0] *)
Definition ceilDiv (a b : Z) : Z := - ((- a) / b).

Definition rowsInViewport (innerHeight : Z) : Z :=
  ceilDiv (innerHeight + VIEWPORT_BUFFER * 2) itemHeight.

Definition visibleCount (innerWidth innerHeight : Z) : Z :=
  rowsInViewport innerHeight * itemsPerRow innerWidth.

(** The first effect: the range set on mount and when [images.length]
    changes. *)
Definition initialRange (innerWidth innerHeight length : Z) : Range :=
  {| start := 0;
     end_ := Z.min length (visibleCount innerWidth innerHeight * 2) |}.

(** The range the animation-frame callback of [handleScroll] computes;
    [Math.floor(scrollTop / itemHeight)] is [Z.div]. *)
Definition scrollRange (innerWidth innerHeight scrollTop length : Z) : Range :=
  let itemsPerRow := itemsPerRow innerWidth in
  let rowsAbove := scrollTop / itemHeight in
  let start := Z.max 0 (rowsAbove * itemsPerRow - itemsPerRow) in
  let end_ := Z.min length
                (start + visibleCount innerWidth innerHeight + itemsPerRow * 2) in
  {| start := start; end_ := end_ |}.

(** [setVisibleRange(prev => ...)] of [handleScroll]: the new range replaces
    the old one only when it moved by more than a row. *)
Definition handleScroll (innerWidth innerHeight scrollTop length : Z)
    (prev : Range) : Range :=
  let r := scrollRange innerWidth innerHeight scrollTop length in
  if (itemsPerRow innerWidth <? Z.abs (start prev - start r))
     || (itemsPerRow innerWidth <? Z.abs (end_ prev - end_ r))
  then r else prev.

Inductive Sentinel : Type := Top | Bottom.

(** An [IntersectionObserverEntry], as far as the callback reads it. *)
Record Entry : Type := mkEntry {
  target : Sentinel;
  isIntersecting : bool
}.

(** The callback's body for one entry: [visibleRange] is the range the
    effect closed over, [prev] the state the updater receives. *)
Definition onEntry (length : Z) (visibleRange : Range) (prev : Range)
    (entry : Entry) : Range :=
  match target entry with
  | Top =>
      if isIntersecting entry && (0 <? start visibleRange)
      then {| start := Z.max 0 (start prev - 20); end_ := end_ prev |}
      else prev
  | Bottom =>
      if isIntersecting entry && (end_ visibleRange <? length)
      then {| start := start prev; end_ := Z.min length (end_ prev + 20) |}
      else prev
  end.

(** The observer callback: [entries.forEach]. The effect is set up again
    whenever [visibleRange] changes, so it closes over the current state. *)
Definition onIntersect (length : Z) (entries : list Entry) (st : Range) : Range :=
  fold_left (onEntry length st) entries st.

(** What changes [visibleRange] after the mount. *)
Inductive Event : Type :=
| ScrollOrResize (innerWidth innerHeight scrollTop : Z)
| Intersect (entries : list Entry).

Definition step (length : Z) (st : Range) (ev : Event) : Range :=
  match ev with
  | ScrollOrResize w h y => handleScroll w h y length st
  | Intersect entries => onIntersect length entries st
  end.

(** The range invariant of the data model: a half-open interval inside the
    collection, holding at most [bound] items. *)
Definition rangeOk (length bound : Z) (r : Range) : Prop :=
  0 <= start r /\ start r <= end_ r /\ end_ r <= length
  /\ end_ r - start r <= bound.

(** The largest range the mount and scroll computations ask for in a
    viewport: twice the visible count, or the visible count and two rows. *)
Definition bufferMax (innerWidth innerHeight : Z) : Z :=
  Z.max (visibleCount innerWidth innerHeight * 2)
        (visibleCount innerWidth innerHeight + itemsPerRow innerWidth * 2).

(** The items per row as the specification states them: 1 below 768px, 2
    from 768px and below 1024px, 3 from 1024px. *)
Definition breakpointColumns (innerWidth : Z) : Z :=
  if innerWidth <? 768 then 1
  else if innerWidth <? 1024 then 2
  else 3.

(** [getGridDimensions] of components/features/GalleryGrid.tsx, the
    keyboard grid's columns for the same breakpoints. *)
Definition getGridDimensions_columns (viewportWidth : Z) : Z :=
  if viewportWidth <? 768 then 1
  else if viewportWidth <? 1024 then 2
  else if viewportWidth <? 1280 then 3
  else 4.

End VirtualizedGalleryGrid.

(** ** pages/Gallery/GalleryContainer.tsx: the deep-link effect *)

Module GalleryContainer.

Definition isWhiteSpace (c : ascii) : bool :=
  match c with
  | " "%char | "009"%char | "010"%char | "011"%char | "012"%char
  | "013"%char => true
  | _ => false
  end.

Definition digitValue (c : ascii) : option Z :=
  let n := Z.of_nat (nat_of_ascii c) in
  if (48 <=? n) && (n <=? 57) then Some (n - 48) else None.

Fixpoint trimStart (s : string) : string :=
  match s with
  | String c rest => if isWhiteSpace c then trimStart rest else s
  | EmptyString => s
  end.

(** The leading decimal digits of [s], read after [acc]; [None] stands for
    no digit read yet. *)
Fixpoint readDigits (s : string) (acc : option Z) : option Z :=
  match s with
  | String c rest =>
      match digitValue c with
      | Some d => readDigits rest (Some (10 * default 0 acc + d))
      | None => acc
      end
  | EmptyString => acc
  end.

(** [parseInt(s, 10)]; [None] is [NaN]. *)
Definition parseInt (s : string) : option Z :=
  match trimStart s with
  | String "-"%char rest => Z.opp <$> readDigits rest None
  | String "+"%char rest => readDigits rest None
  | s' => readDigits s' None
  end.

(** JavaScript truthiness of [number | undefined] (with [NaN] as [None]) and
    of [string | undefined]. *)
Definition truthyNumber (n : option Z) : bool :=
  match n with
  | Some n => negb (n =? 0)
  | None => false
  end.

Definition truthyString (s : option string) : bool :=
  match s with
  | Some (String _ _) => true
  | _ => false
  end.

(** What one run of the effect does. *)
Inductive Effect : Type :=
| NoEffect
| OpenLightbox (image : GalleryImage)
| FetchNextPage
| NavigateNotFound.

(** The body of the effect "Handle initial image ID from URL". *)
Definition deepLinkEffect (initialImageId : option Z) (imageId : option string)
    (isLoading : bool) (imgs : list GalleryImage)
    (hasNextPage isFetchingNextPage : bool) : Effect :=
  if negb (truthyNumber initialImageId) && negb (truthyString imageId)
  then NoEffect
  else if isLoading || (length imgs =? 0)%nat then NoEffect
  else
    let targetImageId :=
      if truthyNumber initialImageId then initialImageId
      else if truthyString imageId then parseInt (default EmptyString imageId)
      else None in
    match targetImageId with
    | None => NoEffect
    | Some target =>
        if target =? 0 then NoEffect
        else
          match list_find (fun img => id img = target) imgs with
          | Some (_, image) => OpenLightbox image
          | None =>
              if hasNextPage && negb isFetchingNextPage
              then FetchNextPage
              else NavigateNotFound
          end
    end.

End GalleryContainer.

(** ** JavaScript numbers *)

(** A number as the gesture code computes with it: a real (no rounding and
    no overflow, one zero), an infinity, or [NaN]. *)
Module JSNumber.

Local Open Scope R_scope.

Inductive t : Type :=
| Fin (r : R)
| PosInf
| NegInf
| NaN.

(** [a / b] for finite [a] and [b]: a quotient by zero is an infinity, and
    [0 / 0] is [NaN]. *)
Definition divide (a b : R) : t :=
  if Req_dec_T b 0 then
    if Req_dec_T a 0 then NaN
    else if Rlt_dec 0 a then PosInf else NegInf
  else Fin (a / b).

(** [x * Infinity] for a finite [x]: [NaN] for zero. *)
Definition timesInfinity (x : R) : t :=
  if Rlt_dec 0 x then PosInf else if Rlt_dec x 0 then NegInf else NaN.

Definition opp (a : t) : t :=
  match a with
  | Fin r => Fin (- r)
  | PosInf => NegInf
  | NegInf => PosInf
  | NaN => NaN
  end.

(** [a * b] *)
Definition mul (a b : t) : t :=
  match a, b with
  | NaN, _ | _, NaN => NaN
  | Fin x, Fin y => Fin (x * y)
  | Fin x, PosInf | PosInf, Fin x => timesInfinity x
  | Fin x, NegInf | NegInf, Fin x => opp (timesInfinity x)
  | PosInf, PosInf | NegInf, NegInf => PosInf
  | PosInf, NegInf | NegInf, PosInf => NegInf
  end.

(** [a < b]: false when either is [NaN]. *)
Definition ltb (a b : t) : bool :=
  match a, b with
  | NaN, _ | _, NaN => false
  | Fin x, Fin y => if Rlt_dec x y then true else false
  | NegInf, Fin _ | NegInf, PosInf | Fin _, PosInf => true
  | _, _ => false
  end.

(** [Math.max(a, b)] and [Math.min(a, b)]: [NaN] when either is. *)
Definition max (a b : t) : t :=
  match a, b with
  | NaN, _ | _, NaN => NaN
  | _, _ => if ltb a b then b else a
  end.

Definition min (a b : t) : t :=
  match a, b with
  | NaN, _ | _, NaN => NaN
  | _, _ => if ltb b a then b else a
  end.

End JSNumber.

(** ** hooks/usePinchZoom.ts *)

Module usePinchZoom.

Import JSNumber.

Local Open Scope R_scope.

(** The coordinates of a touch are finite. *)
Record Touch : Type := mkTouch {
  clientX : R;
  clientY : R
}.

Record PinchZoomOptions : Type := mkOptions {
  minScale : JSNumber.t;
  maxScale : JSNumber.t;
  initialScale : JSNumber.t
}.

(** [minScale = 1, maxScale = 5, initialScale = 1] *)
Definition defaultOptions : PinchZoomOptions :=
  {| minScale := Fin 1; maxScale := Fin 5; initialScale := Fin 1 |}.

(** The [PinchState] kept in [pinchStateRef], in a module of its own
    because its [initialScale] is not the option of the same name. *)
Module PinchState.
Record t : Type := mk {
  initialDistance : R;
  initialScale : JSNumber.t;
  touches : Touch * Touch
}.
End PinchState.

(** What [setScale] is called with: a value ([updateScale]), or the
    updater of [handleTouchStart], which writes the ref from the scale it
    is run on and returns that scale. *)
Inductive Update : Type :=
| SetTo (value : JSNumber.t)
| StartPinch (distance : R) (touch1 touch2 : Touch).

(** The hook: its [scale] state, the updates given to [setScale] that
    React has not run yet, and its ref. *)
Record Hook : Type := mkHook {
  scale : JSNumber.t;
  updates : list Update;
  pinchStateRef : option PinchState.t
}.

Definition init (o : PinchZoomOptions) : Hook :=
  {| scale := initialScale o; updates := []; pinchStateRef := None |}.

(** One update run on the scale and the ref the updates before it left. *)
Definition applyUpdate (st : JSNumber.t * option PinchState.t) (u : Update)
    : JSNumber.t * option PinchState.t :=
  match u with
  | SetTo value => (value, snd st)
  | StartPinch distance touch1 touch2 =>
      (fst st,
       Some {| PinchState.initialDistance := distance;
               PinchState.initialScale := fst st;
               PinchState.touches := (touch1, touch2) |})
  end.

(** React runs the waiting updates, in the order given, each on the state
    the one before it left: inside [setScale] when nothing was waiting and
    it computes the state at once, and at the next render otherwise. *)
Definition flushUpdates (h : Hook) : Hook :=
  let st := fold_left applyUpdate (updates h) (scale h, pinchStateRef h) in
  {| scale := fst st; updates := []; pinchStateRef := snd st |}.

Definition setScale (u : Update) (h : Hook) : Hook :=
  {| scale := scale h; updates := updates h ++ [u];
     pinchStateRef := pinchStateRef h |}.

Definition getDistance (touch1 touch2 : Touch) : R :=
  let dx := clientX touch2 - clientX touch1 in
  let dy := clientY touch2 - clientY touch1 in
  sqrt (dx * dx + dy * dy).

(** [Math.max(minScale, Math.min(maxScale, newScale))] *)
Definition clampedScale (o : PinchZoomOptions) (newScale : JSNumber.t)
    : JSNumber.t :=
  max (minScale o) (min (maxScale o) newScale).

(** [updateScale]: the hook afterwards and the scale given to
    [onScaleChange]. *)
Definition updateScale (o : PinchZoomOptions) (newScale : JSNumber.t)
    (h : Hook) : Hook * option JSNumber.t :=
  (setScale (SetTo (clampedScale o newScale)) h,
   Some (clampedScale o newScale)).

(** [e.touches] is the list of the touches now on the surface. With two
    of them the ref is not written here: it is written by the updater,
    when React runs it. *)
Definition handleTouchStart (ts : list Touch) (h : Hook) : Hook :=
  match ts with
  | [touch1; touch2] =>
      setScale (StartPinch (getDistance touch1 touch2) touch1 touch2) h
  | _ => {| scale := scale h; updates := updates h; pinchStateRef := None |}
  end.

Definition handleTouchMove (o : PinchZoomOptions) (ts : list Touch) (h : Hook)
    : Hook * option JSNumber.t :=
  match pinchStateRef h, ts with
  | Some state, [touch1; touch2] =>
      let currentDistance := getDistance touch1 touch2 in
      let scaleChange :=
        divide currentDistance (PinchState.initialDistance state) in
      let newScale := mul (PinchState.initialScale state) scaleChange in
      updateScale o newScale h
  | _, _ => (h, None)
  end.

Definition handleTouchEnd (ts : list Touch) (h : Hook) : Hook :=
  if (length ts <? 2)%nat
  then {| scale := scale h; updates := updates h; pinchStateRef := None |}
  else h.

(** [reset]: back to the initial scale, through the same clamp. *)
Definition reset (o : PinchZoomOptions) (h : Hook)
    : Hook * option JSNumber.t :=
  updateScale o (initialScale o) h.

(** What the element's listeners and the hook's [reset] receive, and
    React running the waiting updates. *)
Inductive Event : Type :=
| TouchStart (ts : list Touch)
| TouchMove (ts : list Touch)
| TouchEnd (ts : list Touch)
| Reset
| Flush.

Definition step (o : PinchZoomOptions) (h : Hook) (ev : Event) : Hook :=
  match ev with
  | TouchStart ts => handleTouchStart ts h
  | TouchMove ts => fst (handleTouchMove o ts h)
  | TouchEnd ts => handleTouchEnd ts h
  | Reset => fst (reset o h)
  | Flush => flushUpdates h
  end.

(** The scale given to [onScaleChange] by an event, if any. *)
Definition emitted (o : PinchZoomOptions) (h : Hook) (ev : Event)
    : option JSNumber.t :=
  match ev with
  | TouchMove ts => snd (handleTouchMove o ts h)
  | Reset => snd (reset o h)
  | _ => None
  end.

Definition run (o : PinchZoomOptions) (evs : list Event) (h : Hook) : Hook :=
  fold_left (step o) evs h.

(** An event that leaves a gesture under way: it neither starts another
    nor lifts a finger of the two. *)
Definition keepsGesture (ev : Event) : Prop :=
  match ev with
  | TouchStart _ => False
  | TouchEnd ts => (2 <= length ts)%nat
  | TouchMove _ | Reset | Flush => True
  end.

(** The clamp as the specification words it: a value below the interval
    becomes its lower end, one above it the upper end. *)
Definition clamp (x lo hi : R) : R :=
  if Rlt_dec x lo then lo else if Rlt_dec hi x then hi else x.

End usePinchZoom.

(** ** Predicates of the specification on the Collection *)

(** Ascending [display_order], strictly: the order of the Collection. *)
Definition orderLt (a b : GalleryImage) : Prop :=
  display_order a < display_order b.

(** Every image of page [p] comes before every image of page [q]. *)
Definition pageBefore (p q : GalleryResponse) : Prop :=
  forall a b, a ∈ images p -> b ∈ images q -> orderLt a b.

(** The pages as the server cuts them from the ordered image table: each
    ascending, and each before the pages after it. *)
Definition pagesInOrder (ps : list GalleryResponse) : Prop :=
  Forall (fun p => StronglySorted orderLt (images p)) ps
  /\ StronglySorted pageBefore ps.

(** An id is stable: it never comes with two different orders. *)
Definition idsStable (l : list GalleryImage) : Prop :=
  forall a b, a ∈ l -> b ∈ l -> id a = id b -> display_order a = display_order b.


(** ** Sample data, after the fixtures of the test suites *)

Module Sample.

Local Open Scope string_scope.

(** Image [i] of the gallery: its [display_order] is its [id]. *)
Definition image (i : Z) : GalleryImage :=
  {| id := i; cloudinary_url := "https://example.com/image.jpg";
     caption := None; display_order := i |}.

(** A page holding the images [ids], with the cursor of the next page. *)
Definition page (ids : list Z) (cursor : option Z) : GalleryResponse :=
  {| images := image <$> ids;
     pagination := {| next_cursor := cursor;
                      has_more := bool_decide (is_Some cursor);
                      total_count := 4 |} |}.

Definition page1 : GalleryResponse := page [1; 2] (Some 3).
Definition page2 : GalleryResponse := page [3; 4] None.

(** [mockImages] of useLightbox.test.ts *)
Definition mockImages : list GalleryImage := image <$> [1; 2; 3].

(** A backend with the two pages: [page1] first, [page2] at cursor 3, and
    an empty last page at any other cursor. *)
Definition server (cursor : option Z) : GalleryResponse :=
  match cursor with
  | None => page1
  | Some 3 => page2
  | Some _ => page [] None
  end.

End Sample.

(** ** Proof automation *)

(** Splits every membership in a list that is written out into its
    cases. *)
Ltac elem_of_cases :=
  repeat match goal with
         | H : _ ∈ _ :: _ |- _ => apply elem_of_cons in H as [->|H]
         | H : _ ∈ [] |- _ => by apply elem_of_nil in H
         end.

(** * Further code of the gallery *)

(** ** Callers of [useLightbox] *)

(** A call that moves between images without opening or closing:
    [goTo], [goToNext], [goToPrevious]. *)
Definition navigationCall (c : useLightbox.Call) : Prop :=
  match c with
  | useLightbox.CGoTo _ | useLightbox.CGoToNext | useLightbox.CGoToPrevious => True
  | _ => False
  end.

(** ** JavaScript built-ins the components use *)

Module JS.

(** [String(n)] and [`${n}`] for an integer [n] (below the size at which
    JavaScript switches to exponent notation). *)
Definition toString (n : Z) : string := NilZero.string_of_int (Z.to_int n).

(** A relative index of [Array.prototype.slice]: negative counts from the
    end, and the result stays within [0, len]. *)
Definition relativeIndex (len i : Z) : Z :=
  if i <? 0 then Z.max (len + i) 0 else Z.min i len.

(** [l.slice(start, end)] *)
Definition slice {A : Type} (l : list A) (start end_ : Z) : list A :=
  let len := Z.of_nat (length l) in
  let k := relativeIndex len start in
  let final := relativeIndex len end_ in
  take (Z.to_nat (final - k)) (drop (Z.to_nat k) l).

(** [l.slice(start)] *)
Definition sliceFrom {A : Type} (l : list A) (start : Z) : list A :=
  slice l start (Z.of_nat (length l)).

(** [s.split(sep)] for a separator of one character: always at least one
    piece. *)
Fixpoint split (sep : ascii) (s : string) : list string :=
  match s with
  | EmptyString => [EmptyString]
  | String c rest =>
      if Ascii.eqb c sep then EmptyString :: split sep rest
      else
        match split sep rest with
        | piece :: pieces => String c piece :: pieces
        | [] => [String c EmptyString]
        end
  end.

(** [l.join(sep)] *)
Fixpoint join (sep : string) (l : list string) : string :=
  match l with
  | [] => EmptyString
  | [piece] => piece
  | piece :: rest => (piece ++ sep ++ join sep rest)%string
  end.

End JS.

(** ** pages/Gallery/Gallery.tsx *)

Module GalleryPage.

(** The validation effect: [true] when it navigates to the 404 route. *)
Definition validateEffect (imageId : option string) : bool :=
  if GalleryContainer.truthyString imageId then
    match GalleryContainer.parseInt (default EmptyString imageId) with
    | None => true
    | Some parsedId => parsedId <=? 0
    end
  else false.

(** [imageId ? parseInt(imageId, 10) : undefined], the [initialImageId]
    given to the container. *)
Definition initialImageId (imageId : option string) : option Z :=
  if GalleryContainer.truthyString imageId
  then GalleryContainer.parseInt (default EmptyString imageId)
  else None.

End GalleryPage.

(** ** pages/Gallery/GalleryContainer.tsx: the address bar *)

Module GalleryContainerUrl.

Local Open Scope string_scope.

(** [`/gallery/${image.id}`] *)
Definition galleryPath (imageId : Z) : string :=
  "/gallery/" ++ JS.toString imageId.

(** [handleImageClick]: the lightbox opens on the image and its path is
    pushed. *)
Definition handleImageClick (imgs : list GalleryImage) (image : GalleryImage)
    (triggerElement activeElement : option useLightbox.HTMLElement)
    (st : useLightbox.State) : useLightbox.State * string :=
  (useLightbox.open imgs (useLightbox.ByImage image) triggerElement
     activeElement st,
   galleryPath (id image)).

(** The effect "Update URL when lightbox navigation changes": the path it
    replaces the address with, if any. *)
Definition urlSyncEffect (isOpen : bool) (currentImage : option GalleryImage)
    (imageId : option string) : option string :=
  match isOpen, currentImage with
  | true, Some image =>
      let currentImageId :=
        if GalleryContainer.truthyString imageId
        then GalleryContainer.parseInt (default EmptyString imageId)
        else None in
      if decide (currentImageId = Some (id image)) then None
      else Some (galleryPath (id image))
  | _, _ => None
  end.

(** The [targetImageId] of the deep-link effect. *)
Definition targetImageId (initialImageId : option Z) (imageId : option string)
    : option Z :=
  if GalleryContainer.truthyNumber initialImageId then initialImageId
  else if GalleryContainer.truthyString imageId
       then GalleryContainer.parseInt (default EmptyString imageId)
       else None.

End GalleryContainerUrl.

(** ** hooks/useSwipe.ts *)

Module useSwipe.

Local Open Scope R_scope.

(** The options; a callback is modelled by whether it was given. *)
Record SwipeOptions : Type := mkOptions {
  onSwipeLeft : bool;
  onSwipeRight : bool;
  onSwipeUp : bool;
  onSwipeDown : bool;
  threshold : R;
  velocityThreshold : R;
  preventDefault : bool
}.

(** [threshold = 50], [velocityThreshold = 0.3], [preventDefault = true],
    and no callback. *)
Definition defaultOptions : SwipeOptions :=
  {| onSwipeLeft := false; onSwipeRight := false; onSwipeUp := false;
     onSwipeDown := false; threshold := 50; velocityThreshold := 3 / 10;
     preventDefault := true |}.

Record TouchState : Type := mkTouchState {
  startX : R;
  startY : R;
  startTime : R;
  currentX : R;
  currentY : R
}.

(** The callback a [touchend] calls. *)
Inductive Swipe : Type := SwipeLeft | SwipeRight | SwipeUp | SwipeDown.

(** [e.touches[0]], when there is one, and [Date.now()]. *)
Definition handleTouchStart (touch : option (R * R)) (now : R)
    (ref : option TouchState) : option TouchState :=
  match touch with
  | None => ref
  | Some (x, y) =>
      Some {| startX := x; startY := y; startTime := now;
              currentX := x; currentY := y |}
  end.

Definition handleTouchMove (touch : option (R * R))
    (ref : option TouchState) : option TouchState :=
  match ref, touch with
  | Some st, Some (x, y) =>
      Some {| startX := startX st; startY := startY st;
              startTime := startTime st; currentX := x; currentY := y |}
  | _, _ => ref
  end.

(** The ref after a [touchstart] at [start] and a [touchmove] at each
    position of [positions]. *)
Definition track (start : R * R) (now : R) (positions : list (R * R))
    (ref : option TouchState) : option TouchState :=
  fold_left (fun r touch => handleTouchMove (Some touch) r) positions
    (handleTouchStart (Some start) now ref).

(** [a < b] on numbers, as a boolean. *)
Definition ltb (a b : R) : bool := if Rlt_dec a b then true else false.

(** [distance / deltaTime < velocityThreshold] as JavaScript evaluates it:
    a quotient by zero is [Infinity] or [NaN], which is below no
    threshold. *)
Definition velocityBelow (distance deltaTime velocityThreshold : R) : bool :=
  if Req_dec_T deltaTime 0 then false
  else ltb (distance / deltaTime) velocityThreshold.

(** [handleTouchEnd]: the ref afterwards and the callback called, if
    any. *)
Definition handleTouchEnd (o : SwipeOptions) (now : R)
    (ref : option TouchState) : option TouchState * option Swipe :=
  match ref with
  | None => (None, None)
  | Some st =>
      let deltaX := currentX st - startX st in
      let deltaY := currentY st - startY st in
      let deltaTime := now - startTime st in
      let distance := sqrt (deltaX * deltaX + deltaY * deltaY) in
      if ltb distance (threshold o)
         || velocityBelow distance deltaTime (velocityThreshold o)
      then (None, None)
      else
        let absDeltaX := Rabs deltaX in
        let absDeltaY := Rabs deltaY in
        if ltb absDeltaY absDeltaX then
          if ltb 0 deltaX && onSwipeRight o
          then (None, Some SwipeRight)
          else if ltb deltaX 0 && onSwipeLeft o
               then (None, Some SwipeLeft)
               else (None, None)
        else
          if ltb 0 deltaY && onSwipeDown o
          then (None, Some SwipeDown)
          else if ltb deltaY 0 && onSwipeUp o
               then (None, Some SwipeUp)
               else (None, None)
  end.

(** The options the [Lightbox] gives the hook: a swipe to the left is
    [onNext], a swipe to the right [onPrevious]. *)
Definition lightboxOptions (onPrevious onNext : bool) : SwipeOptions :=
  {| onSwipeLeft := onNext; onSwipeRight := onPrevious; onSwipeUp := false;
     onSwipeDown := false; threshold := 50; velocityThreshold := 3 / 10;
     preventDefault := false |}.

End useSwipe.

(** ** hooks/usePinchZoom.ts: conditions on the events *)

(** A [touchstart] with two touches has them at two different points. *)
Definition apartStart (ev : usePinchZoom.Event) : Prop :=
  match ev with
  | usePinchZoom.TouchStart [touch1; touch2] =>
      (0 < usePinchZoom.getDistance touch1 touch2)%R
  | _ => True
  end.

(** An update that sets a value, not the updater of a [touchstart]. *)
Definition setsValue (u : usePinchZoom.Update) : Prop :=
  match u with
  | usePinchZoom.SetTo _ => True
  | usePinchZoom.StartPinch _ _ _ => False
  end.

(** A finite scale of the interval [[lo, hi]]. *)
Definition scaleWithin (lo hi : R) (v : JSNumber.t) : Prop :=
  match v with
  | JSNumber.Fin x => (lo <= x <= hi)%R
  | _ => False
  end.

(** A waiting update that keeps the scale in the interval: a value of it,
    or the updater of a [touchstart] whose touches were apart. *)
Definition updateWithin (lo hi : R) (u : usePinchZoom.Update) : Prop :=
  match u with
  | usePinchZoom.SetTo value => scaleWithin lo hi value
  | usePinchZoom.StartPinch distance _ _ => (0 < distance)%R
  end.

(** A ref that holds nothing, or a gesture begun with touches apart at a
    scale of the interval. *)
Definition refWithin (lo hi : R) (r : option usePinchZoom.PinchState.t)
    : Prop :=
  match r with
  | Some state =>
      (0 < usePinchZoom.PinchState.initialDistance state)%R
      /\ scaleWithin lo hi (usePinchZoom.PinchState.initialScale state)
  | None => True
  end.

(** A hook whose scale is and stays in the interval: its state, what
    waits to be run, and the gesture its ref holds. *)
Definition hookWithin (lo hi : R) (h : usePinchZoom.Hook) : Prop :=
  scaleWithin lo hi (usePinchZoom.scale h)
  /\ Forall (updateWithin lo hi) (usePinchZoom.updates h)
  /\ refWithin lo hi (usePinchZoom.pinchStateRef h).

(** ** VirtualizedGalleryGrid: what is rendered for a range *)

Module VirtualizedRender.

Import VirtualizedGalleryGrid.

(** [images.slice(visibleRange.start, visibleRange.end)] *)
Definition visibleImages (imgs : list GalleryImage) (r : Range)
    : list GalleryImage :=
  JS.slice imgs (start r) (end_ r).

(** The heights of the two spacers, in pixels. *)
Definition topSpacerHeight (r : Range) : Z := start r * 300.

Definition bottomSpacerHeight (imgs : list GalleryImage) (r : Range) : Z :=
  (Z.of_nat (length imgs) - end_ r) * 300.

End VirtualizedRender.

(** ** components/features/gallery/GalleryGrid/GalleryGrid.tsx *)

Module GalleryGrid.

(** [x || d] for numbers. *)
Definition orElse (x d : Z) : Z := if x =? 0 then d else x.

(** [(window?.innerWidth || 1024) > 1024 ? 3
     : (window?.innerWidth || 768) > 768 ? 2 : 1] *)
Definition imagesPerRow (innerWidth : Z) : Z :=
  if 1024 <? orElse innerWidth 1024 then 3
  else if 768 <? orElse innerWidth 768 then 2
  else 1.

Definition priorityCount (innerWidth innerHeight : Z) : Z :=
  VirtualizedGalleryGrid.ceilDiv (orElse innerHeight 800) 300
  * imagesPerRow innerWidth.

(** The two lists of the [useMemo]: the images of the first viewport,
    loaded eagerly, and the rest. *)
Definition priorityImages (imgs : list GalleryImage)
    (innerWidth innerHeight : Z) : list GalleryImage :=
  match imgs with
  | [] => []
  | _ => JS.slice imgs 0 (priorityCount innerWidth innerHeight)
  end.

Definition lazyImages (imgs : list GalleryImage)
    (innerWidth innerHeight : Z) : list GalleryImage :=
  match imgs with
  | [] => []
  | _ => JS.sliceFrom imgs (priorityCount innerWidth innerHeight)
  end.

(** [[...priorityImages, ...lazyImages]] *)
Definition allImages (imgs : list GalleryImage) (innerWidth innerHeight : Z)
    : list GalleryImage :=
  priorityImages imgs innerWidth innerHeight
  ++ lazyImages imgs innerWidth innerHeight.

Inductive Key : Type :=
| ArrowRight | ArrowLeft | ArrowDown | ArrowUp | Home | End_ | Enter
| OtherKey.

(** [handleKeyDown]: the index of the item that gets the focus, for the
    focused item [currentIndex] among [count] items; [None] when the focus
    does not move. The grid knows no [Home], [End] or [Enter]. *)
Definition handleKeyDown (key : Key) (innerWidth currentIndex count : Z)
    : option Z :=
  if currentIndex =? -1 then None
  else
    let nextIndex :=
      match key with
      | ArrowRight => Z.min (currentIndex + 1) (count - 1)
      | ArrowLeft => Z.max (currentIndex - 1) 0
      | ArrowDown =>
          Z.min (currentIndex + VirtualizedGalleryGrid.itemsPerRow innerWidth)
            (count - 1)
      | ArrowUp =>
          Z.max (currentIndex - VirtualizedGalleryGrid.itemsPerRow innerWidth) 0
      | _ => currentIndex
      end in
    if negb (nextIndex =? currentIndex)
       && (0 <=? nextIndex) && (nextIndex <? count)
    then Some nextIndex else None.

End GalleryGrid.

(** ** components/features/GalleryGrid.tsx: the keyboard grid *)

Module KeyboardGrid.

Import GalleryGrid.

(** [handleKeyDown] with [setFocusedIndex]: the focused index after a
    key, over [length] images. *)
Definition handleKeyDown (key : Key) (viewportWidth length : Z)
    (focusedIndex : option Z) : option Z :=
  match focusedIndex with
  | None => None
  | Some focused =>
      if length =? 0 then focusedIndex
      else
        let columns :=
          VirtualizedGalleryGrid.getGridDimensions_columns viewportWidth in
        match key with
        | ArrowRight => Some (Z.min (focused + 1) (length - 1))
        | ArrowLeft => Some (Z.max (focused - 1) 0)
        | ArrowDown => Some (Z.min (focused + columns) (length - 1))
        | ArrowUp => Some (Z.max (focused - columns) 0)
        | Home => Some 0
        | End_ => Some (length - 1)
        | Enter => Some focused
        | OtherKey => Some focused
        end
  end.

End KeyboardGrid.

(** The focused index of the keyboard grid after a run of keys, each
    pressed at some viewport width. *)
Definition keyboardGridRun (length : Z) (keys : list (GalleryGrid.Key * Z))
    (focusedIndex : option Z) : option Z :=
  fold_left
    (fun focused kw => KeyboardGrid.handleKeyDown (fst kw) (snd kw) length focused)
    keys focusedIndex.

(** ** contexts/FavoritesContext.tsx: the favourites and their URL *)

Module FavoritesContext.

Import GalleryContainer.

Local Open Scope string_scope.

(** [favorites.some(img => img.id === imageId)] *)
Definition isFavorite (favorites : list GalleryImage) (imageId : Z) : bool :=
  existsb (fun img => id img =? imageId)%Z favorites.

(** The updaters handed to [setFavorites]: each takes the previous list. *)
Definition addFavorite (image : GalleryImage) (prev : list GalleryImage)
    : list GalleryImage :=
  if existsb (fun img => id img =? id image)%Z prev then prev
  else prev ++ [image].

Definition removeFavorite (imageId : Z) (prev : list GalleryImage)
    : list GalleryImage :=
  filter (fun img => id img <> imageId) prev.

Definition toggleFavorite (image : GalleryImage) (prev : list GalleryImage)
    : list GalleryImage :=
  let isFav := existsb (fun img => id img =? id image)%Z prev in
  if isFav then filter (fun img => id img <> id image) prev
  else prev ++ [image].

Definition clearFavorites (prev : list GalleryImage) : list GalleryImage := [].

(** [loadFavoritesFromUrl]: a placeholder image for every id of
    [favoriteIds] that no previous favourite has. *)
Definition loadFavoritesFromUrl (favoriteIds : list Z)
    (prev : list GalleryImage) : list GalleryImage :=
  let existingIds := id <$> prev in
  let newIds := filter (fun i => i ∉ existingIds) favoriteIds in
  let newImages :=
    (fun i =>
       {| id := i;
          cloudinary_url := "";
          caption := Some ("Favorite image " ++ JS.toString i);
          display_order := (Z.of_nat (length prev) + 1)%Z |})
    <$> newIds in
  prev ++ newImages.

Definition getFavoriteIds (favorites : list GalleryImage) : list Z :=
  id <$> favorites.

(** The effect "Update URL when favorites change": the value it leaves in
    the search parameter [favorites], [None] when it deletes the
    parameter. *)
Definition urlParam (favorites : list GalleryImage) : option string :=
  let favoriteIds := id <$> favorites in
  if (0 <? length favoriteIds)%nat
  then Some (JS.join "," (JS.toString <$> favoriteIds))
  else None.

(** The effect "Load favorites from URL on mount", run on the value of the
    search parameter ([None] when the URL has none). *)
Definition loadFromUrlParam (favoriteIdsParam : option string)
    (prev : list GalleryImage) : list GalleryImage :=
  if truthyString favoriteIdsParam then
    let favoriteIds :=
      omap parseInt (JS.split ","%char (default "" favoriteIdsParam)) in
    if (0 <? length favoriteIds)%nat then loadFavoritesFromUrl favoriteIds prev
    else prev
  else prev.

End FavoritesContext.

(** ** utils/imageUtils.ts: the Cloudinary URLs of an image *)

Module imageUtils.

Import GalleryContainer.

Local Open Scope string_scope.

(** ['auto' | number], with the number an integer. *)
Inductive Quality : Type :=
| QualityAuto
| QualityNumber (n : Z).

Inductive Format : Type := FormatAuto | Webp | Jpg | Png.
Inductive Crop : Type := Scale | Fill | CropCrop | Thumb.
Inductive Gravity : Type := GravityAuto | Face | Center.

Definition qualityText (q : Quality) : string :=
  match q with
  | QualityAuto => "auto"
  | QualityNumber n => JS.toString n
  end.

Definition formatText (f : Format) : string :=
  match f with
  | FormatAuto => "auto" | Webp => "webp" | Jpg => "jpg" | Png => "png"
  end.

Definition cropText (c : Crop) : string :=
  match c with
  | Scale => "scale" | Fill => "fill" | CropCrop => "crop" | Thumb => "thumb"
  end.

Definition gravityText (g : Gravity) : string :=
  match g with
  | GravityAuto => "auto" | Face => "face" | Center => "center"
  end.

(** The options of [buildCloudinaryTransform]; [None] is a field left
    out. *)
Record TransformOptions : Type := mkTransform {
  width : option Z;
  quality : option Quality;
  format : option Format;
  crop : option Crop;
  gravity : option Gravity
}.

(** JavaScript truthiness of a quality: the number 0 is falsy. *)
Definition truthyQuality (q : option Quality) : bool :=
  match q with
  | Some QualityAuto => true
  | Some (QualityNumber n) => negb (n =? 0)%Z
  | None => false
  end.

Definition buildCloudinaryTransform (options : TransformOptions) : string :=
  let w :=
    if truthyNumber (width options)
    then ["w_" ++ JS.toString (default 0%Z (width options))] else [] in
  let q :=
    if truthyQuality (quality options)
    then ["q_" ++ qualityText (default QualityAuto (quality options))]
    else [] in
  let f :=
    match format options with
    | Some f => ["f_" ++ formatText f]
    | None => []
    end in
  let c :=
    match crop options with
    | Some c => ["c_" ++ cropText c]
    | None => []
    end in
  let g :=
    match gravity options with
    | Some g => ["g_" ++ gravityText g]
    | None => []
    end in
  let params := (w ++ q ++ f ++ c ++ g)%list in
  JS.join "," params.

(** [cloudinaryUrl.split('?')[0]]: [split] gives at least one piece. *)
Definition baseUrl (cloudinaryUrl : string) : string :=
  hd "" (JS.split "?"%char cloudinaryUrl).

Definition generateOptimizedImageUrl (cloudinaryUrl : string)
    (options : TransformOptions) : string :=
  let transform :=
    buildCloudinaryTransform
      {| width := None;
         quality := Some (if truthyQuality (quality options)
                          then default QualityAuto (quality options)
                          else QualityAuto);
         format := Some (default FormatAuto (format options));
         crop := Some (default Scale (crop options));
         gravity := Some (default GravityAuto (gravity options)) |} in
  baseUrl cloudinaryUrl ++ "?" ++ transform.

Definition generateLQIPUrl (cloudinaryUrl : string) : string :=
  let lqipTransform :=
    buildCloudinaryTransform
      {| width := Some 50%Z;
         quality := Some (QualityNumber 1);
         format := Some FormatAuto;
         crop := Some Scale;
         gravity := None |} in
  let blurTransform := "e_blur:1000" in
  baseUrl cloudinaryUrl ++ "?" ++ lqipTransform ++ "," ++ blurTransform.

End imageUtils.
(** * Properties *)

(** ** The Collection: [flattenGalleryImages] *)

Section Collection.

Import useGalleryImagesInfinite.

Lemma elem_of_flat_map_images (x : GalleryImage) (ps : list GalleryResponse) :
  x ∈ flat_map images ps <-> exists p, p ∈ ps /\ x ∈ images p.
Proof.
  rewrite list_elem_of_In, in_flat_map.
  by setoid_rewrite list_elem_of_In.
Qed.

Lemma flatten_Some (d : InfiniteData) :
  flattenGalleryImages (Some d) = flat_map images (pages d).
Proof. reflexivity. Qed.


Lemma flat_map_images_sorted (ps : list GalleryResponse) :
  pagesInOrder ps -> StronglySorted orderLt (flat_map images ps).
Proof.
  intros [Hin Hcross].
  induction ps as [|p ps IH]; simpl; [constructor|].
  apply Forall_cons in Hin as [Hp Hps].
  apply StronglySorted_cons in Hcross as [Hpq Hrest].
  apply StronglySorted_app_2; [|done|by apply IH].
  intros a b Ha [q [Hq Hb]]%elem_of_flat_map_images.
  rewrite Forall_forall in Hpq.
  by apply (Hpq q Hq).
Qed.

Lemma sorted_ids_NoDup (l : list GalleryImage) :
  StronglySorted orderLt l -> idsStable l -> NoDup (id <$> l).
Proof.
  induction 1 as [|a l Hl IH Ha]; intros Hst; simpl; constructor.
  - intros [b [Hid Hb]]%list_elem_of_fmap.
    rewrite Forall_forall in Ha.
    specialize (Ha b Hb). unfold orderLt in Ha.
    assert (display_order a = display_order b) as Heq
      by (apply Hst; [left | by right | done]).
    lia.
  - apply IH. intros x y Hx Hy. apply Hst; by right.
Qed.

End Collection.

Section CollectionClaims.

Import useGalleryImagesInfinite.

(** C1, as stated, fails: the page [page1] fetched a second time is stored
    a second time, so the Collection holds every id of it twice, is no
    longer ascending, and the re-fetch changed it. *)
Lemma refetch_duplicates_images :
  let d := addPage None None Sample.page1 in
  let d' := addPage d None Sample.page1 in
  id <$> flattenGalleryImages d' = [1; 2; 1; 2]
  /\ ~ NoDup (id <$> flattenGalleryImages d')
  /\ ~ StronglySorted orderLt (flattenGalleryImages d')
  /\ flattenGalleryImages d' <> flattenGalleryImages d.
Proof.
  simpl. split; [reflexivity|]. split; [|split].
  - intros H. apply NoDup_cons in H as [H _]. apply H. set_solver.
  - intros H. apply StronglySorted_cons in H as [_ H].
    apply StronglySorted_cons in H as [H _].
    apply Forall_cons in H as [H _]. unfold orderLt in H. simpl in H. lia.
  - discriminate.
Qed.

(** C1 (amended): the Collection is the concatenation of the stored pages,
    in their order, with nothing dropped; when the pages are in order (each
    ascending, each before the later ones) and ids are stable, it is
    ascending by [display_order] and holds no id twice. *)
Theorem collection_of_ordered_pages (d : InfiniteData) :
  pagesInOrder (pages d) ->
  idsStable (flattenGalleryImages (Some d)) ->
  flattenGalleryImages (Some d) = concat (images <$> pages d)
  /\ StronglySorted orderLt (flattenGalleryImages (Some d))
  /\ NoDup (id <$> flattenGalleryImages (Some d)).
Proof.
  intros Hord Hst. rewrite flatten_Some in *.
  assert (StronglySorted orderLt (flat_map images (pages d))) as Hs
    by (apply flat_map_images_sorted; exact Hord).
  split; [|split]; [|done|by apply sorted_ids_NoDup].
  clear. induction (pages d) as [|p ps IH]; simpl; [done|]. by rewrite IH.
Qed.

End CollectionClaims.

Section Interleaving.

Import useGalleryImagesInfinite InfiniteQuery.

Variable server : option Z -> GalleryResponse.






End Interleaving.

(** The two pages of the sample backend under a busy interleaving: a
    second fetch during the first load, a request replaced by another, the
    answer to the replaced request arriving late, and a fetch past the
    last page. The Collection is the one of the page order. *)
Example interleaved_sample_loads :
  let evs :=
    [InfiniteQuery.Fetch; InfiniteQuery.Fetch; InfiniteQuery.Answer 0;
     InfiniteQuery.Fetch; InfiniteQuery.Fetch; InfiniteQuery.Answer 1;
     InfiniteQuery.Answer 2; InfiniteQuery.Answer 1; InfiniteQuery.Fetch] in
  let q := InfiniteQuery.run Sample.server evs InfiniteQuery.init in
  id <$> useGalleryImagesInfinite.flattenGalleryImages (InfiniteQuery.data q)
  = [1; 2; 3; 4]
  /\ InfiniteQuery.data q
     = Some {| pages := [Sample.page1; Sample.page2];
               pageParams := [None; Some 3] |}
  /\ InfiniteQuery.awaited q = None.
Proof. by vm_compute. Qed.


Section CollectionWitness.

Import useGalleryImagesInfinite.

Lemma sample_pages_in_order : pagesInOrder [Sample.page1; Sample.page2].
Proof.
  split.
  - repeat constructor; unfold orderLt; simpl; lia.
  - repeat constructor.
    intros a b Ha Hb. simpl in Ha, Hb.
    elem_of_cases; unfold orderLt; simpl; lia.
Defined.

Lemma sample_ids_stable :
  idsStable (flat_map images [Sample.page1; Sample.page2]).
Proof.
  intros a b Ha Hb. simpl in Ha, Hb.
  elem_of_cases; simpl; intros; lia.
Defined.

Lemma collection_of_ordered_pages_witness :
  let d := {| pages := [Sample.page1; Sample.page2];
              pageParams := [None; Some 3] |} in
  flattenGalleryImages (Some d) = concat (images <$> pages d)
  /\ StronglySorted orderLt (flattenGalleryImages (Some d))
  /\ NoDup (id <$> flattenGalleryImages (Some d)).
Proof.
  intros d. apply (collection_of_ordered_pages d).
  - exact sample_pages_in_order.
  - exact sample_ids_stable.
Defined.

End CollectionWitness.

(** ** The lightbox state machine: [useLightbox] *)

Section Lightbox.

Import useLightbox.

Variable imgs : list GalleryImage.

Local Abbreviation n := (len imgs).

Lemma len_nonneg : 0 <= n.
Proof. unfold len. lia. Qed.

Lemma goToNext_index (st : State) :
  0 < n -> 0 <= currentIndex st ->
  goToNext imgs st = setCurrentIndex ((currentIndex st + 1) mod n) st.
Proof.
  intros Hn Hi. unfold goToNext.
  destruct (Z.eqb_spec n 0) as [E|_]; [lia|].
  by rewrite Z.rem_mod_nonneg by lia.
Qed.

Lemma goToPrevious_index (st : State) :
  0 < n -> 0 <= currentIndex st ->
  goToPrevious imgs st = setCurrentIndex ((currentIndex st - 1 + n) mod n) st.
Proof.
  intros Hn Hi. unfold goToPrevious.
  destruct (Z.eqb_spec n 0) as [E|_]; [lia|].
  by rewrite Z.rem_mod_nonneg by lia.
Qed.

(** [k] steps forward from a valid index add [k] modulo the length and
    touch nothing else. *)
Lemma goToNext_iter (k : nat) (st : State) :
  0 <= currentIndex st < n ->
  Nat.iter k (goToNext imgs) st
  = setCurrentIndex ((currentIndex st + Z.of_nat k) mod n) st.
Proof.
  intros Hi. induction k as [|k IH].
  - simpl. rewrite Z.add_0_r, Z.mod_small by lia. by destruct st.
  - rewrite Nat.iter_succ, IH.
    rewrite goToNext_index; simpl; [|lia|apply Z.mod_pos_bound; lia].
    unfold setCurrentIndex; simpl. f_equal.
    rewrite Z.add_mod_idemp_l by lia. f_equal. lia.
Qed.

(** C3: over a Collection of length [n > 0], [goToNext] moves from any
    index [i >= 0] to [(i + 1) mod n] and [goToPrevious] to
    [(i - 1 + n) mod n], and the lightbox stays as open as it was; from an
    index of the Collection this is so whatever [hasNext] and
    [hasPrevious] say, forward from the last index to [0] and backward from
    [0] to the last index, and [n] steps forward lead back to the state
    they left. *)
Theorem goToNext_goToPrevious_wrap (st : State) :
  let i := currentIndex st in
  0 < n -> 0 <= i ->
  currentIndex (goToNext imgs st) = (i + 1) mod n
  /\ currentIndex (goToPrevious imgs st) = (i - 1 + n) mod n
  /\ isOpen (goToNext imgs st) = isOpen st
  /\ isOpen (goToPrevious imgs st) = isOpen st
  /\ (i < n ->
      (hasNext imgs st = false -> currentIndex (goToNext imgs st) = 0)
      /\ (hasPrevious st = false ->
          currentIndex (goToPrevious imgs st) = n - 1)
      /\ Nat.iter (Z.to_nat n) (goToNext imgs) st = st).
Proof.
  intros i Hn Hi. subst i.
  rewrite goToNext_index, goToPrevious_index by lia. simpl.
  split_and!; try reflexivity. intros Hlt. split_and!.
  - unfold hasNext. intros H%Z.ltb_ge.
    replace (currentIndex st + 1) with n by lia. apply Z.mod_same. lia.
  - unfold hasPrevious. intros H%Z.ltb_ge.
    replace (currentIndex st - 1 + n) with (n - 1) by lia.
    apply Z.mod_small. lia.
  - rewrite goToNext_iter by done. rewrite Z2Nat.id by lia.
    rewrite <- (Z.mul_1_l n) at 1. rewrite Z.mod_add by lia.
    rewrite Z.mod_small by lia. by destruct st.
Qed.

(** *** Where the index stays valid *)

Lemma findIndex_known (target : Z) :
  target ∈ (id <$> imgs) -> 0 <= findIndex imgs target < n.
Proof.
  intros [img [-> Himg]]%list_elem_of_fmap. unfold findIndex.
  destruct (list_find_elem_of (fun x => id x = id img) imgs img Himg eq_refl)
    as [[k x] Hk].
  rewrite Hk. apply list_find_Some in Hk as [Hk _].
  apply lookup_lt_Some in Hk. unfold len. lia.
Qed.

Lemma findIndex_bounds (target : Z) : -1 <= findIndex imgs target < n.
Proof.
  unfold findIndex.
  destruct (list_find _ imgs) as [[k x]|] eqn:Hk.
  - apply list_find_Some in Hk as [Hk _].
    apply lookup_lt_Some in Hk. unfold len. lia.
  - pose proof len_nonneg. lia.
Qed.

Lemma call_valid_index (c : Call) (st : State) :
  0 < n -> knownCall imgs c -> validIndex imgs st ->
  validIndex imgs (call imgs c st).
Proof.
  unfold validIndex. intros Hn Hc Hst.
  destruct c as [[i|img] t e| |i| |]; simpl.
  - lia.
  - simpl in Hc. apply findIndex_known in Hc.
    destruct (Z.eqb_spec (findIndex imgs (id img)) (-1)); simpl; lia.
  - done.
  - lia.
  - rewrite goToNext_index by lia. simpl. apply Z.mod_pos_bound. lia.
  - rewrite goToPrevious_index by lia. simpl. apply Z.mod_pos_bound. lia.
Qed.

(** Over a Collection that is not empty, calls that open no unknown image
    keep the index on an image, open or closed. *)
Lemma run_valid_index (cs : list Call) (st : State) :
  0 < n -> Forall (knownCall imgs) cs -> validIndex imgs st ->
  validIndex imgs (run imgs cs st).
Proof.
  intros Hn Hcs. revert st.
  induction Hcs as [|c cs Hc _ IH]; intros st Hst; simpl; [done|].
  apply IH. by apply call_valid_index.
Qed.

Lemma validIndex_currentImage (st : State) :
  validIndex imgs st -> is_Some (currentImage imgs st).
Proof.
  unfold validIndex, currentImage, len. intros Hst.
  destruct (Z.ltb_spec (currentIndex st) 0); [lia|].
  apply lookup_lt_is_Some. lia.
Qed.

End Lightbox.

Section LightboxScenarios.

Import useLightbox.

Lemma goToNext_goToPrevious_wrap_witness :
  let imgs := Sample.mockImages in
  let st := open imgs (ByIndex 2) None None (init 0) in
  currentIndex (goToNext imgs st) = (2 + 1) mod 3
  /\ currentIndex (goToPrevious imgs st) = (2 - 1 + 3) mod 3
  /\ isOpen (goToNext imgs st) = isOpen st
  /\ isOpen (goToPrevious imgs st) = isOpen st
  /\ (2 < 3 ->
      (hasNext imgs st = false -> currentIndex (goToNext imgs st) = 0)
      /\ (hasPrevious st = false ->
          currentIndex (goToPrevious imgs st) = 3 - 1)
      /\ Nat.iter (Z.to_nat 3) (goToNext imgs) st = st).
Proof.
  intros imgs st.
  apply (goToNext_goToPrevious_wrap imgs st); unfold len; simpl; lia.
Defined.

(** The scenario of the specification: over the images [1; 2; 3],
    opening image [2] selects index [1], one step back index [0], and one
    more step back wraps to index [2]. *)
Example open_then_previous_twice :
  let imgs := Sample.mockImages in
  let s1 := open imgs (ByImage (Sample.image 2)) None None (init 0) in
  let s2 := goToPrevious imgs s1 in
  let s3 := goToPrevious imgs s2 in
  (isOpen s1, currentIndex s1, currentIndex s2, currentIndex s3)
  = (true, 1, 0, 2).
Proof. reflexivity. Qed.

(** C2 fails on the code at these inputs: opening an image whose id (99)
    is not in the Collection leaves the lightbox open at index 3, one past
    the three images, with no current image; and opening index 0 of an
    empty Collection leaves it open at index 0 with no image either. *)
Theorem open_without_image :
  let imgs := Sample.mockImages in
  let st := open imgs (ByImage (Sample.image 99)) None None (init 0) in
  let st' := open [] (ByIndex 0) None None (init 0) in
  (isOpen st = true /\ currentIndex st = 3 /\ len imgs = 3
   /\ currentImage imgs st = None)
  /\ (isOpen st' = true /\ currentIndex st' = 0 /\ len [] = 0
      /\ currentImage [] st' = None).
Proof. by vm_compute. Qed.

End LightboxScenarios.

Section EmptyCollection.

Import useLightbox.

Lemma call_empty_index (c : Call) (st : State) :
  currentIndex st = 0 -> currentIndex (call [] c st) = 0.
Proof.
  intros Hst.
  destruct c as [[i|img] t e| |i| |]; try done; unfold call, open, goTo, len;
    simpl; lia.
Qed.

Lemma run_empty_index (cs : list Call) (st : State) :
  currentIndex st = 0 -> currentIndex (run [] cs st) = 0.
Proof.
  revert st. induction cs as [|c cs IH]; intros st Hst; simpl; [done|].
  by apply IH, call_empty_index.
Qed.

(** C10, as stated, fails: [hasPrevious] looks at the index alone. Over
    an empty Collection a hook created with [initialIndex] 2, or one left
    at index 2 by a Collection of three images that then became empty, has
    no current image and still says that there is a previous one. *)
Lemma empty_collection_hasPrevious :
  let left := run Sample.mockImages [COpen (ByIndex 2) None None] (init 0) in
  (currentImage [] (init 2) = None /\ hasPrevious (init 2) = true)
  /\ (currentIndex left = 2 /\ currentImage [] left = None
      /\ hasPrevious left = true).
Proof. by vm_compute. Qed.

(** C10 (amended): over an empty Collection, in every state: there is no
    current image; [hasNext] is false from index [-1] up and [hasPrevious]
    is false exactly up to index [0]; [goToNext] and [goToPrevious] return
    the state unchanged; [goTo i] and [open i] set the index to [0] for
    every integer [i]; and from index [0] every sequence of calls stays at
    index [0], where [hasNext] and [hasPrevious] are false. *)
Theorem empty_collection_operations (st : State) :
  currentImage [] st = None
  /\ (hasNext [] st = false <-> -1 <= currentIndex st)
  /\ (hasPrevious st = false <-> currentIndex st <= 0)
  /\ goToNext [] st = st
  /\ goToPrevious [] st = st
  /\ (forall i, currentIndex (goTo [] i st) = 0)
  /\ (forall i t e, currentIndex (open [] (ByIndex i) t e st) = 0)
  /\ (forall cs, currentIndex st = 0 ->
        let st' := run [] cs st in
        currentIndex st' = 0
        /\ hasNext [] st' = false /\ hasPrevious st' = false).
Proof.
  split_and!.
  - unfold currentImage. by destruct (_ <? _).
  - unfold hasNext, len. simpl. rewrite Z.ltb_ge. lia.
  - unfold hasPrevious. by rewrite Z.ltb_ge.
  - done.
  - done.
  - intros i. unfold goTo, len. simpl. lia.
  - intros i t e. unfold open, len. simpl. lia.
  - intros cs Hst st'.
    assert (currentIndex st' = 0) as Hst' by by apply run_empty_index.
    unfold hasNext, hasPrevious. by rewrite Hst'.
Qed.

End EmptyCollection.

(** ** The window calculator: [VirtualizedGalleryGrid] *)

Section Window.

Import VirtualizedGalleryGrid.

Lemma itemsPerRow_cases (w : Z) :
  itemsPerRow w = 1 \/ itemsPerRow w = 2 \/ itemsPerRow w = 3.
Proof.
  unfold itemsPerRow.
  destruct (1024 <? w); [auto|]. destruct (768 <? w); auto.
Qed.

(** What the code computes: the breakpoints belong to the narrower
    layout. *)
Lemma itemsPerRow_spec (w : Z) :
  itemsPerRow w = if w <=? 768 then 1 else if w <=? 1024 then 2 else 3.
Proof.
  unfold itemsPerRow.
  destruct (Z.ltb_spec 1024 w), (Z.ltb_spec 768 w),
    (Z.leb_spec w 768), (Z.leb_spec w 1024); lia.
Qed.

(** Away from the two breakpoints the code and the specification agree. *)
Lemma itemsPerRow_off_breakpoints (w : Z) :
  w <> 768 -> w <> 1024 -> itemsPerRow w = breakpointColumns w.
Proof.
  intros H1 H2. unfold itemsPerRow, breakpointColumns.
  destruct (Z.ltb_spec 1024 w), (Z.ltb_spec 768 w),
    (Z.ltb_spec w 768), (Z.ltb_spec w 1024); lia.
Qed.

(** C8 fails on the code exactly at the two breakpoints: a viewport 768px
    wide gets 1 item per row where the specification, and the keyboard grid
    of the same gallery, have 2; a viewport 1024px wide gets 2 where they
    have 3. *)
Theorem itemsPerRow_at_breakpoints :
  (itemsPerRow 768 = 1 /\ breakpointColumns 768 = 2
   /\ getGridDimensions_columns 768 = 2)
  /\ (itemsPerRow 1024 = 2 /\ breakpointColumns 1024 = 3
      /\ getGridDimensions_columns 1024 = 3).
Proof. by vm_compute. Qed.

Lemma rowsInViewport_nonneg (h : Z) : 0 <= h -> 0 <= rowsInViewport h.
Proof.
  intros Hh. unfold rowsInViewport, ceilDiv, VIEWPORT_BUFFER, itemHeight.
  assert ((- (h + 1000 * 2)) / 300 <= 0); [|lia].
  apply Z.div_le_upper_bound; lia.
Qed.

Lemma visibleCount_nonneg (w h : Z) : 0 <= h -> 0 <= visibleCount w h.
Proof.
  intros Hh. unfold visibleCount.
  pose proof (rowsInViewport_nonneg h Hh).
  destruct (itemsPerRow_cases w) as [->|[->| ->]]; lia.
Qed.

(** The range of the scroll and resize recomputation. *)
Lemma scrollRange_bounds (w h y length : Z) :
  0 <= h -> 0 <= length ->
  let r := scrollRange w h y length in
  0 <= start r
  /\ end_ r <= length
  /\ end_ r - start r <= visibleCount w h + itemsPerRow w * 2
  /\ (start r <= length -> start r <= end_ r).
Proof.
  intros Hh Hl. simpl.
  pose proof (visibleCount_nonneg w h Hh).
  destruct (itemsPerRow_cases w) as [E|[E|E]]; rewrite E; lia.
Qed.

(** One entry of the observer moves one end by at most 20 items and keeps
    the range inside the collection. *)
Lemma onEntry_bounds (length : Z) (visibleRange prev : Range) (e : Entry) :
  0 <= start prev <= end_ prev -> end_ prev <= length ->
  let r := onEntry length visibleRange prev e in
  (0 <= start r <= end_ r /\ end_ r <= length)
  /\ end_ r - start r <= end_ prev - start prev + 20.
Proof.
  intros H1 H2. unfold onEntry.
  destruct (target e);
    match goal with |- context [if ?c then _ else _] => destruct c end;
    simpl; lia.
Qed.

Lemma fold_onEntry_bounds (length : Z) (closed : Range)
    (entries : list Entry) (prev : Range) :
  0 <= start prev <= end_ prev -> end_ prev <= length ->
  let r := fold_left (onEntry length closed) entries prev in
  (0 <= start r <= end_ r /\ end_ r <= length)
  /\ end_ r - start r
     <= end_ prev - start prev + 20 * Z.of_nat (List.length entries).
Proof.
  revert prev. induction entries as [|e es IH]; intros prev H1 H2.
  - simpl. lia.
  - cbn [fold_left List.length].
    destruct (onEntry_bounds length closed prev e H1 H2) as [[Ha Hb] Hc].
    destruct (IH _ Ha Hb) as [Hd He].
    split; [exact Hd|]. lia.
Qed.

Lemma handleScroll_cases (w h y length : Z) (prev : Range) :
  handleScroll w h y length prev = scrollRange w h y length
  \/ handleScroll w h y length prev = prev.
Proof. unfold handleScroll. destruct (_ || _); auto. Qed.

Lemma initialRange_ok (w h length : Z) :
  0 <= h -> 0 <= length ->
  rangeOk length (bufferMax w h) (initialRange w h length).
Proof.
  intros Hh Hl. pose proof (visibleCount_nonneg w h Hh).
  unfold rangeOk, bufferMax, initialRange. simpl. lia.
Qed.

(** C4, as stated, fails. In a viewport of 1200 by 800 pixels the mount
    and scroll computations ask for at most 60 items; over 1000 images the
    range set on mount is [0, 60), and one intersection of the bottom
    sentinel makes it [0, 80), 80 items. *)
Lemma sentinel_extension_exceeds_buffer :
  let r0 := initialRange 1200 800 1000 in
  let r1 := onIntersect 1000 [{| target := Bottom; isIntersecting := true |}] r0 in
  bufferMax 1200 800 = 60
  /\ r0 = {| start := 0; end_ := 60 |}
  /\ r1 = {| start := 0; end_ := 80 |}
  /\ ~ rangeOk 1000 (bufferMax 1200 800) r1.
Proof.
  split_and!; try reflexivity.
  unfold rangeOk. vm_compute. intros (_ & _ & _ & H). by apply H.
Qed.

(** The sentinel extensions have no bound but the collection: [k]
    intersections of the bottom sentinel after the mount leave [60 + 20 k]
    items mounted when the collection has that many. *)
Lemma sentinel_extensions_add_up (k : nat) (length : Z) :
  60 + 20 * Z.of_nat k <= length ->
  Nat.iter k
    (onIntersect length [{| target := Bottom; isIntersecting := true |}])
    (initialRange 1200 800 length)
  = {| start := 0; end_ := 60 + 20 * Z.of_nat k |}.
Proof.
  induction k as [|k IH]; intros Hl.
  - unfold initialRange. simpl. f_equal.
    change (visibleCount 1200 800 * 2) with 60. lia.
  - rewrite Nat.iter_succ, IH by lia.
    unfold onIntersect, onEntry. simpl.
    destruct (Z.ltb_spec (60 + 20 * Z.of_nat k) length); [|lia].
    f_equal. lia.
Qed.

(** So no constant bounds the number of mounted items over all
    collections. *)
Lemma sentinel_extensions_unbounded (bound : Z) :
  exists (length : Z) (k : nat),
    let r := Nat.iter k
               (onIntersect length
                  [{| target := Bottom; isIntersecting := true |}])
               (initialRange 1200 800 length) in
    bound < end_ r - start r.
Proof.
  exists (60 + 20 * Z.of_nat (Z.to_nat (Z.max 0 bound))),
         (Z.to_nat (Z.max 0 bound)).
  simpl. rewrite sentinel_extensions_add_up by lia. simpl. lia.
Qed.

(** The scroll recomputation does not clamp [start]: over 100 images, of
    which the mount renders 60 and leaves a spacer for the other 40, the
    page scrolls to 17100px, where the range it computes starts at 168,
    beyond its own end and the collection. *)
Example scrollRange_past_the_end :
  scrollRange 1200 800 17100 100 = {| start := 168; end_ := 100 |}.
Proof. reflexivity. Qed.

(** C4 (amended): for every scroll offset, viewport and collection length,
    the range of the scroll and resize recomputation starts at 0 or later,
    ends inside the collection and holds no more than the buffer-derived
    maximum of the viewport, with [start <= end] when [start] is inside the
    collection; the state after it is that range or the former one; the
    range set on mount satisfies the whole invariant; and the sentinel
    extensions keep [0 <= start <= end <= length] but add up to 20 items
    for each intersection. *)
Theorem window_range_bounds (w h y length : Z) (entries : list Entry)
    (prev : Range) :
  0 <= h -> 0 <= length ->
  0 <= start prev <= end_ prev -> end_ prev <= length ->
  let r := scrollRange w h y length in
  let r' := onIntersect length entries prev in
  (0 <= start r /\ end_ r <= length
   /\ end_ r - start r <= bufferMax w h
   /\ (start r <= length -> start r <= end_ r))
  /\ (handleScroll w h y length prev = r
      \/ handleScroll w h y length prev = prev)
  /\ rangeOk length (bufferMax w h) (initialRange w h length)
  /\ (0 <= start r' <= end_ r' /\ end_ r' <= length
      /\ end_ r' - start r'
         <= end_ prev - start prev + 20 * Z.of_nat (List.length entries)).
Proof.
  intros Hh Hl H1 H2 r r'.
  destruct (scrollRange_bounds w h y length Hh Hl) as (Ha & Hb & Hc & Hd).
  destruct (fold_onEntry_bounds length prev entries prev H1 H2) as [[He Hf] Hg].
  split; [|split; [|split]].
  - subst r. unfold bufferMax. repeat split; try assumption. lia.
  - apply handleScroll_cases.
  - by apply initialRange_ok.
  - subst r'. unfold onIntersect. repeat split; tauto || lia.
Qed.

Lemma window_range_bounds_witness :
  let prev := {| start := 0; end_ := 60 |} in
  let entries := [{| target := Bottom; isIntersecting := true |}] in
  let r := scrollRange 1200 800 3000 1000 in
  let r' := onIntersect 1000 entries prev in
  (0 <= start r /\ end_ r <= 1000
   /\ end_ r - start r <= bufferMax 1200 800
   /\ (start r <= 1000 -> start r <= end_ r))
  /\ (handleScroll 1200 800 3000 1000 prev = r
      \/ handleScroll 1200 800 3000 1000 prev = prev)
  /\ rangeOk 1000 (bufferMax 1200 800) (initialRange 1200 800 1000)
  /\ (0 <= start r' <= end_ r' /\ end_ r' <= 1000
      /\ end_ r' - start r'
         <= end_ prev - start prev + 20 * Z.of_nat (List.length entries)).
Proof.
  intros prev entries.
  apply (window_range_bounds 1200 800 3000 1000 entries prev); simpl; lia.
Defined.

End Window.

(** ** Fetch errors and the retry policy *)

Section Retry.

Import client useGalleryImagesInfinite.

Local Open Scope string_scope.

Lemma includes_app_r (needle p s : string) :
  includes needle s = true -> includes needle (p ++ s) = true.
Proof.
  intros H. induction p as [|c p IH]; simpl; [done|].
  rewrite IH. apply orb_true_r.
Qed.

(** Every failure leaves the client as an [Error] whose message starts
    with the client's prefix. *)
Lemma fetchGalleryImages_error (r : FetchResult) (e : Thrown) :
  fetchGalleryImages r = inr e ->
  exists m, e = ErrorObject ("Gallery fetch failed: " ++ m).
Proof.
  destruct r as [[m|]|status text body|m|data]; simpl; intros [= <-]; eauto.
Qed.

(** The policy looks at the text of the message, and at nothing else of
    the failure. *)
Lemma retry_spec (failureCount : Z) (message : string) :
  retry failureCount (ErrorObject message)
  = negb (includes "4" message) && (failureCount <? 3)%Z.
Proof. unfold retry. by destruct (includes "4" message). Qed.

(** When the message is the status line, a 4xx status puts a [4] in it. *)
Lemma status_line_4xx (status : N) (statusText : string) :
  is4xx status = true ->
  includes "4" (statusMessage status statusText) = true.
Proof.
  intros H. unfold statusMessage. apply includes_app_r.
  assert (forallb
            (fun k => match NilZero.string_of_uint (N.to_uint (N.of_nat k)) with
                      | String "4"%char _ => true
                      | _ => false
                      end) (seq 400 100) = true) as Hall by by vm_compute.
  rewrite forallb_forall in Hall.
  specialize (Hall (N.to_nat status)).
  rewrite N2Nat.id in Hall.
  unfold is4xx in H. apply andb_prop in H as [H1 H2].
  apply N.leb_le in H1. apply N.ltb_lt in H2.
  destruct (NilZero.string_of_uint (N.to_uint status)) as [|c rest] eqn:E.
  - discriminate Hall. apply in_seq. lia.
  - destruct (Ascii.ascii_dec c "4"%char) as [->|Hc].
    + simpl. by destruct (rest ++ _).
    + exfalso.
      assert (In (N.to_nat status) (seq 400 100)) as Hin by (apply in_seq; lia).
      specialize (Hall Hin).
      destruct c as [[] [] [] [] [] [] [] []]; try discriminate Hall.
      by apply Hc.
Qed.

(** C5 fails on the code at these inputs. The 400 response of the client's
    own test, whose body carries a message, gives an error without a [4]
    in its text, so this 4xx failure is retried; a 504 response without a
    body gives the status line, which has a [4] in it, so this 5xx failure
    is not retried at all. *)
Theorem retry_by_message_text (json : string) :
  let bad_request :=
    NotOk 400 "Bad Request"
      (JsonBody (Some (DetailObject (Some "Invalid limit parameter") json))) in
  let gateway_timeout := NotOk 504 "Gateway Timeout" NotJson in
  (is4xx 400 = true
   /\ fetchGalleryImages bad_request
      = inr (ErrorObject "Gallery fetch failed: Invalid limit parameter")
   /\ retry 0 (ErrorObject "Gallery fetch failed: Invalid limit parameter")
      = true)
  /\ (is4xx 504 = false
      /\ fetchGalleryImages gateway_timeout
         = inr (ErrorObject
                  "Gallery fetch failed: Gallery API error: 504 Gateway Timeout")
      /\ retry 0
           (ErrorObject
              "Gallery fetch failed: Gallery API error: 504 Gateway Timeout")
         = false).
Proof. by vm_compute. Qed.

End Retry.

(** ** The deep-link effect of [GalleryContainer] *)

Section DeepLink.

Import GalleryContainer.

Local Open Scope string_scope.

Example parseInt_examples :
  parseInt "999" = Some 999 /\ parseInt " 42abc" = Some 42
  /\ parseInt "-7" = Some (-7) /\ parseInt "abc" = None
  /\ parseInt "" = None.
Proof. by vm_compute. Qed.

(** A target that is among the loaded images opens the lightbox on the
    image with that id. *)
Lemma deepLinkEffect_found (target : Z) (imageId : option string)
    (imgs : list GalleryImage) (hasNextPage isFetchingNextPage : bool) :
  target <> 0 -> target ∈ (id <$> imgs) ->
  exists image,
    deepLinkEffect (Some target) imageId false imgs hasNextPage
      isFetchingNextPage = OpenLightbox image
    /\ image ∈ imgs /\ id image = target.
Proof.
  intros H0 [img [-> Himg]]%list_elem_of_fmap.
  assert ((id img =? 0)%Z = false) as E by lia.
  assert ((length imgs =? 0)%nat = false) as El
    by (destruct imgs; [by apply elem_of_nil in Himg|done]).
  unfold deepLinkEffect, truthyNumber. rewrite E, El. simpl. rewrite ?E.
  destruct (list_find_elem_of (fun x => id x = id img) _ img Himg eq_refl)
    as [[k x] Hk].
  rewrite Hk. exists x. split; [done|].
  apply list_find_Some in Hk as (Hk & Hx & _).
  split; [by eapply list_elem_of_lookup_2|done].
Qed.

(** A target that is not among the loaded images, once the first page is
    there: the next page is asked for when there is one and no request is
    under way, and in every other case the page goes to the 404 route. *)
Lemma deepLinkEffect_absent (target : Z) (imageId : option string)
    (imgs : list GalleryImage) (hasNextPage isFetchingNextPage : bool) :
  target <> 0 -> imgs <> [] -> target ∉ (id <$> imgs) ->
  deepLinkEffect (Some target) imageId false imgs hasNextPage
    isFetchingNextPage
  = if hasNextPage && negb isFetchingNextPage
    then FetchNextPage else NavigateNotFound.
Proof.
  intros H0 Hne Habs.
  assert ((target =? 0)%Z = false) as E by lia.
  assert ((length imgs =? 0)%nat = false) as El by by destruct imgs.
  unfold deepLinkEffect, truthyNumber. rewrite E, El. simpl. rewrite ?E.
  destruct (list_find _ _) as [[k x]|] eqn:Hk; [|done].
  apply list_find_Some in Hk as (Hk & Hx & _).
  exfalso. apply Habs. apply list_elem_of_fmap. exists x.
  split; [done|by eapply list_elem_of_lookup_2].
Qed.

(** C7 fails on the code at these inputs, all for the link [/gallery/999]
    over a first page that holds image 1 only. With more pages to load and
    no request under way the effect asks for the next page; the request it
    started makes [isFetchingNextPage] true, the effect runs again, and
    with more pages to load it now goes to the 404 route instead of
    waiting for the page. And over an empty Collection with nothing more
    to load the effect does nothing at all. *)
Theorem deep_link_gives_up_while_fetching :
  let imgs := [Sample.image 1] in
  deepLinkEffect None (Some "999") false imgs true false = FetchNextPage
  /\ deepLinkEffect None (Some "999") false imgs true true = NavigateNotFound
  /\ deepLinkEffect None (Some "999") false [] false false = NoEffect.
Proof. by vm_compute. Qed.

End DeepLink.

(** ** The pinch recogniser: [usePinchZoom] *)

Section Pinch.

Import JSNumber usePinchZoom.

Local Open Scope R_scope.

(** The code's [Math.max(min, Math.min(max, x))] is, on finite numbers,
    the clamp of the specification on every interval that is not empty. *)
Lemma clampedScale_clamp (o : PinchZoomOptions) (lo hi x : R) :
  minScale o = Fin lo -> maxScale o = Fin hi -> lo <= hi ->
  clampedScale o (Fin x) = Fin (clamp x lo hi).
Proof.
  intros Hlo Hhi Hle. unfold clampedScale. rewrite Hlo, Hhi.
  unfold clamp, max, min, ltb.
  repeat (destruct (Rlt_dec _ _); simpl); try lra; f_equal; lra.
Qed.

(** Updates that set values leave the ref as it is when React runs
    them. *)
Lemma applyUpdates_ref (us : list Update) (s : JSNumber.t)
    (r : option PinchState.t) :
  Forall setsValue us -> snd (fold_left applyUpdate us (s, r)) = r.
Proof.
  intros Hus. revert s. induction Hus as [|u us Hu _ IH]; intros s; [done|].
  destruct u as [v|]; [|done]. apply IH.
Qed.

(** No event that leaves the gesture under way writes the ref, and none
    makes the updater of a [touchstart] wait. *)
Lemma run_keeps_gesture (o : PinchZoomOptions) (evs : list Event) (h : Hook) :
  Forall keepsGesture evs -> Forall setsValue (updates h) ->
  pinchStateRef (run o evs h) = pinchStateRef h
  /\ Forall setsValue (updates (run o evs h)).
Proof.
  intros Hevs. revert h.
  induction Hevs as [|ev evs Hev _ IH]; intros h Hq; [done|].
  assert (pinchStateRef (step o h ev) = pinchStateRef h
          /\ Forall setsValue (updates (step o h ev))) as [Href Hq'].
  { destruct ev as [ts|ts|ts| |]; simpl in *.
    - done.
    - unfold handleTouchMove.
      destruct (pinchStateRef h) as [state|] eqn:E; [|done].
      destruct ts as [|t1 [|t2 [|t3 ts]]]; try done.
      simpl. split; [done|]. apply Forall_app. by repeat constructor.
    - unfold handleTouchEnd.
      destruct (Nat.ltb_spec (length ts) 2); [lia|done].
    - split; [done|]. apply Forall_app. by repeat constructor.
    - split; [by apply applyUpdates_ref|constructor]. }
  destruct (IH (step o h ev) Hq') as [IH1 IH2].
  split; [|done]. simpl. by rewrite IH1.
Qed.

(** What the updater of a two-touch [touchstart] writes when React runs
    the waiting updates: the distance of the touches, and the scale that
    the updates before it left. *)
Lemma flushUpdates_handleTouchStart (a b : Touch) (h : Hook) :
  flushUpdates (handleTouchStart [a; b] h)
  = {| scale := scale (flushUpdates h);
       updates := [];
       pinchStateRef :=
         Some {| PinchState.initialDistance := getDistance a b;
                 PinchState.initialScale := scale (flushUpdates h);
                 PinchState.touches := (a, b) |} |}.
Proof.
  unfold flushUpdates, handleTouchStart, setScale. simpl.
  by rewrite fold_left_app.
Qed.

(** Two touches on one horizontal line are as far apart as their [x]
    coordinates. *)
Lemma getDistance_horizontal (x1 x2 y : R) :
  x1 <= x2 ->
  getDistance {| clientX := x1; clientY := y |}
              {| clientX := x2; clientY := y |} = x2 - x1.
Proof.
  intros Hx. unfold getDistance. simpl.
  replace ((x2 - x1) * (x2 - x1) + (y - y) * (y - y))
    with ((x2 - x1) * (x2 - x1)) by ring.
  apply sqrt_square. lra.
Qed.



(** The scenario of the specification, with the default options: two
    touches 100px apart moving to 300px apart from scale 1 give scale 3,
    and moving to 600px apart, a ratio of 6, give the maximum, 5. Until
    React has run the updater of the [touchstart], the ref holds nothing
    and a move emits nothing. *)
Example pinch_100_to_300 :
  let o := defaultOptions in
  let a := {| clientX := 0; clientY := 0 |} in
  let b := {| clientX := 100; clientY := 0 |} in
  let started := handleTouchStart [a; b] (init o) in
  let began := flushUpdates started in
  snd (handleTouchMove o [a; {| clientX := 300; clientY := 0 |}] began)
  = Some (Fin 3)
  /\ snd (handleTouchMove o [a; {| clientX := 600; clientY := 0 |}] began)
     = Some (Fin 5)
  /\ snd (handleTouchMove o [a; {| clientX := 300; clientY := 0 |}] started)
     = None.
Proof.
  intros o a b started began. unfold handleTouchMove, updateScale. simpl.
  unfold a, b. rewrite !getDistance_horizontal by lra.
  unfold divide. destruct (Req_dec_T (100 - 0) 0) as [E|_]; [lra|].
  unfold clampedScale, max, min, ltb. simpl.
  repeat split; do 2 f_equal; repeat (destruct (Rlt_dec _ _); simpl);
    try lra; f_equal; lra.
Qed.

End Pinch.

(** * Further properties of the code *)

(** ** More of [useLightbox] *)

Section LightboxMore.

Import useLightbox.

Variable imgs : list GalleryImage.

Local Abbreviation n := (len imgs).

Lemma len_pos : imgs <> [] -> 0 < n.
Proof. unfold len. destruct imgs; [done|]. simpl. lia. Qed.

(** Over a Collection that is not empty, whatever is called, as long as
    no image foreign to the Collection is opened, the hook shows an image:
    the index is one of the Collection and [currentImage] is not null. *)
Theorem known_calls_show_an_image (cs : list Call) :
  imgs <> [] -> Forall (knownCall imgs) cs ->
  let st := run imgs cs (init 0) in
  validIndex imgs st /\ is_Some (currentImage imgs st).
Proof.
  intros Hne Hcs st.
  assert (validIndex imgs st) as Hv.
  { apply run_valid_index; [by apply len_pos|done|].
    unfold validIndex. simpl. pose proof (len_pos Hne). lia. }
  split; [done|by apply validIndex_currentImage].
Qed.

(** [open] with an image: when the Collection has an image with that id
    the lightbox opens on the first one, and when it has none it opens at
    index [images.length], where there is no image. *)
Theorem open_by_image (image : GalleryImage)
    (trigger activeElement : option HTMLElement) (st : State) :
  let st' := open imgs (ByImage image) trigger activeElement st in
  isOpen st' = true
  /\ (id image ∈ (id <$> imgs) ->
      exists shown,
        currentImage imgs st' = Some shown /\ id shown = id image
        /\ forall j other, imgs !! j = Some other ->
             Z.of_nat j < currentIndex st' -> id other <> id image)
  /\ (id image ∉ (id <$> imgs) ->
      currentIndex st' = n /\ currentImage imgs st' = None).
Proof.
  intros st'. split; [done|]. subst st'.
  unfold open, currentImage, findIndex; simpl.
  destruct (list_find _ imgs) as [[k x]|] eqn:Hk; simpl.
  - apply list_find_Some in Hk as (Hk & Hx & Hfirst).
    destruct (Z.eqb_spec (Z.of_nat k) (-1)) as [|_]; [lia|]. simpl.
    destruct (Z.ltb_spec (Z.of_nat k) 0); [lia|]. rewrite Nat2Z.id.
    split.
    + intros _. exists x. split_and!; [done..|].
      intros j other Hj Hlt. apply (Hfirst j other Hj). lia.
    + intros Habs. exfalso. apply Habs. apply list_elem_of_fmap.
      exists x. split; [done|by eapply list_elem_of_lookup_2].
  - apply list_find_None in Hk. split.
    + intros [y [Hy Hin]]%list_elem_of_fmap. exfalso.
      rewrite Forall_forall in Hk. by apply (Hk y Hin).
    + intros _. split; [done|].
      destruct (Z.ltb_spec n 0); [done|].
      apply lookup_ge_None. unfold len. lia.
Qed.

(** On an index of the Collection [goToNext] and [goToPrevious] undo each
    other. *)
Theorem goToNext_goToPrevious_inverse (st : State) :
  validIndex imgs st ->
  goToPrevious imgs (goToNext imgs st) = st
  /\ goToNext imgs (goToPrevious imgs st) = st.
Proof.
  unfold validIndex. intros Hv.
  assert (0 <= (currentIndex st + 1) mod n < n) by (apply Z.mod_pos_bound; lia).
  assert (0 <= (currentIndex st - 1 + n) mod n < n)
    by (apply Z.mod_pos_bound; lia).
  split.
  - rewrite (goToNext_index imgs st) by lia.
    rewrite goToPrevious_index; simpl; [|lia..].
    unfold setCurrentIndex; simpl.
    replace ((currentIndex st + 1) mod n - 1 + n)
      with ((currentIndex st + 1) mod n + (n - 1)) by lia.
    rewrite Z.add_mod_idemp_l by lia.
    replace (currentIndex st + 1 + (n - 1)) with (currentIndex st + 1 * n) by lia.
    rewrite Z.mod_add, Z.mod_small by lia. by destruct st.
  - rewrite (goToPrevious_index imgs st) by lia.
    rewrite goToNext_index; simpl; [|lia..].
    unfold setCurrentIndex; simpl.
    rewrite Z.add_mod_idemp_l by lia.
    replace (currentIndex st - 1 + n + 1) with (currentIndex st + 1 * n) by lia.
    rewrite Z.mod_add, Z.mod_small by lia. by destruct st.
Qed.

(** [goTo] clamps: over a Collection that is not empty it always lands on
    an index of the Collection, the asked one when that is one, else the
    nearest end; asking again changes nothing, and [goTo] neither opens nor
    closes. *)
Theorem goTo_clamps (index : Z) (st : State) :
  imgs <> [] ->
  let st' := goTo imgs index st in
  validIndex imgs st'
  /\ (0 <= index < n -> currentIndex st' = index)
  /\ (index < 0 -> currentIndex st' = 0)
  /\ (n <= index -> currentIndex st' = n - 1)
  /\ goTo imgs index st' = st'
  /\ isOpen st' = isOpen st.
Proof.
  intros Hne st'. pose proof (len_pos Hne).
  subst st'. unfold validIndex, goTo, setCurrentIndex. simpl.
  split_and!; try lia; reflexivity.
Qed.

Lemma navigation_keeps_trigger (cs : list Call) (st : State) :
  Forall navigationCall cs ->
  triggerElement (run imgs cs st) = triggerElement st.
Proof.
  intros Hcs. revert st.
  induction Hcs as [|c cs Hc _ IH]; intros st; [done|].
  simpl. rewrite IH.
  destruct c as [a t e| |i| |]; try done; simpl;
    unfold goToNext, goToPrevious; by destruct (n =? 0).
Qed.

(** The element given to [open], or the active element when none is
    given, survives every navigation; after [close] the timer gives it the
    focus when it is still in the document, and to nothing else; and
    [close] keeps the index, so that opening again at it resumes. *)
Theorem close_returns_focus (imageOrIndex : ImageOrIndex)
    (trigger activeElement : option HTMLElement) (cs : list Call)
    (attached : HTMLElement -> bool) (st : State) :
  Forall navigationCall cs ->
  let opened := run imgs cs (open imgs imageOrIndex trigger activeElement st) in
  let stored := match trigger with Some t => Some t | None => activeElement end in
  let closed := close opened in
  fst (restoreFocus attached closed)
  = match stored with
    | Some t => if attached t then Some t else None
    | None => None
    end
  /\ triggerElement (snd (restoreFocus attached closed)) = None
  /\ isOpen closed = false
  /\ currentIndex closed = currentIndex opened.
Proof.
  intros Hcs opened stored closed.
  assert (triggerElement opened = stored) as Ht
    by (subst opened; by rewrite navigation_keeps_trigger).
  subst closed. unfold restoreFocus, close. simpl. by rewrite Ht.
Qed.

End LightboxMore.

Section LightboxMoreWitnesses.

Import useLightbox.

Lemma known_calls_show_an_image_witness :
  let imgs := Sample.mockImages in
  let cs := [COpen (ByImage (Sample.image 2)) None None; CGoToNext;
             CGoToNext; CClose; CGoTo 7] in
  validIndex imgs (run imgs cs (init 0))
  /\ is_Some (currentImage imgs (run imgs cs (init 0))).
Proof.
  intros imgs cs.
  apply (known_calls_show_an_image imgs cs); [discriminate|].
  repeat constructor.
Defined.

Lemma goToNext_goToPrevious_inverse_witness :
  let imgs := Sample.mockImages in
  let st := open imgs (ByIndex 0) None None (init 0) in
  goToPrevious imgs (goToNext imgs st) = st
  /\ goToNext imgs (goToPrevious imgs st) = st.
Proof.
  intros imgs st. apply (goToNext_goToPrevious_inverse imgs st).
  unfold validIndex, len. simpl. lia.
Defined.

Lemma goTo_clamps_witness :
  let imgs := Sample.mockImages in
  let st' := goTo imgs 7 (init 0) in
  validIndex imgs st'
  /\ (0 <= 7 < len imgs -> currentIndex st' = 7)
  /\ (7 < 0 -> currentIndex st' = 0)
  /\ (len imgs <= 7 -> currentIndex st' = len imgs - 1)
  /\ goTo imgs 7 st' = st'
  /\ isOpen st' = isOpen (init 0).
Proof.
  intros imgs. apply (goTo_clamps imgs 7 (init 0)). discriminate.
Defined.

Lemma close_returns_focus_witness :
  let imgs := Sample.mockImages in
  let cs := [CGoToNext; CGoTo 0; CGoToPrevious] in
  let attached := fun e : HTMLElement => true in
  let opened := run imgs cs (open imgs (ByIndex 1) (Some 5%nat) None (init 0)) in
  let closed := close opened in
  fst (restoreFocus attached closed) = Some 5%nat
  /\ triggerElement (snd (restoreFocus attached closed)) = None
  /\ isOpen closed = false
  /\ currentIndex closed = currentIndex opened.
Proof.
  intros imgs cs attached.
  apply (close_returns_focus imgs (ByIndex 1) (Some 5%nat) None cs attached
           (init 0)).
  repeat constructor.
Defined.

End LightboxMoreWitnesses.

(** ** Decimal text of integers: [parseInt] reads what [toString] writes *)

Section DecimalText.

Import GalleryContainer.

Local Open Scope string_scope.

(** [readDigits] over the digits of a decimal number is Horner's rule. *)
Lemma readDigits_uint (d : Decimal.uint) (acc : Z) :
  readDigits (NilEmpty.string_of_uint d) (Some acc)
  = Some (acc * 10 ^ Z.of_N (DecimalPos.Unsigned.usize d)
          + Z.of_N (DecimalPos.Unsigned.of_lu (Decimal.rev d))).
Proof.
  revert acc. induction d; intros acc; [simpl; f_equal; lia|..].
  all: cbn [NilEmpty.string_of_uint readDigits]; unfold digitValue; simpl.
  all: rewrite IHd; f_equal.
  all: match goal with
       | |- context [Decimal.rev (?D ?x)] =>
           change (Decimal.rev (D x)) with (Decimal.revapp x (D Decimal.Nil));
           rewrite (DecimalPos.Unsigned.of_lu_revapp x (D Decimal.Nil))
       end.
  all: cbn [DecimalPos.Unsigned.usize DecimalPos.Unsigned.of_lu].
  all: match goal with
       | |- context [Z.of_nat (nat_of_ascii ?c)] =>
           let v := eval vm_compute in (Z.of_nat (nat_of_ascii c)) in
           change (Z.of_nat (nat_of_ascii c)) with v
       end.
  all: rewrite N2Z.inj_add, N2Z.inj_mul, N2Z.inj_pow, N2Z.inj_succ.
  all: rewrite Z.pow_succ_r by lia.
  all: simpl Z.of_N; lia.
Qed.

Lemma parseInt_uint (d : Decimal.uint) :
  d <> Decimal.Nil ->
  parseInt (NilEmpty.string_of_uint d) = Some (Z.of_N (Pos.of_uint d)).
Proof.
  intros Hd.
  assert (parseInt (NilEmpty.string_of_uint d)
          = readDigits (NilEmpty.string_of_uint d) (Some 0)) as ->
    by (destruct d; done).
  by rewrite readDigits_uint, DecimalPos.Unsigned.of_uint_alt.
Qed.

(** Reading the decimal text of an integer gives the integer back. *)
Lemma parseInt_toString (z : Z) : parseInt (JS.toString z) = Some z.
Proof.
  unfold JS.toString. destruct z as [|p|p]; [done|..]; simpl.
  - pose proof (DecimalPos.Unsigned.to_uint_nonnil p) as Hnil.
    replace (NilZero.string_of_uint (Pos.to_uint p))
      with (NilEmpty.string_of_uint (Pos.to_uint p))
      by (by destruct (Pos.to_uint p)).
    by rewrite parseInt_uint, DecimalPos.Unsigned.of_to.
  - pose proof (DecimalPos.Unsigned.to_uint_nonnil p) as Hnil.
    replace (NilZero.string_of_uint (Pos.to_uint p))
      with (NilEmpty.string_of_uint (Pos.to_uint p))
      by (by destruct (Pos.to_uint p)).
    assert (parseInt (String "-" (NilEmpty.string_of_uint (Pos.to_uint p)))
            = Z.opp <$> parseInt (NilEmpty.string_of_uint (Pos.to_uint p)))
      as -> by (by destruct (Pos.to_uint p)).
    by rewrite parseInt_uint, DecimalPos.Unsigned.of_to.
Qed.

(** The text of an integer is never empty. *)
Lemma toString_nonempty (z : Z) : JS.toString z <> EmptyString.
Proof.
  unfold JS.toString.
  destruct z as [|p|p]; [done| |done]. simpl.
  pose proof (DecimalPos.Unsigned.to_uint_nonnil p).
  by destruct (Pos.to_uint p).
Qed.

End DecimalText.

(** ** More of [GalleryContainer]: deep links and the address bar *)

Section DeepLinkMore.

Import GalleryContainer GalleryContainerUrl.

Local Open Scope string_scope.

Lemma deepLinkEffect_cases (initialImageId : option Z)
    (imageId : option string) (isLoading : bool) (imgs : list GalleryImage)
    (hasNextPage isFetchingNextPage : bool) :
  let target := targetImageId initialImageId imageId in
  match deepLinkEffect initialImageId imageId isLoading imgs hasNextPage
          isFetchingNextPage with
  | OpenLightbox image =>
      isLoading = false /\ image ∈ imgs /\ target = Some (id image)
  | FetchNextPage =>
      isLoading = false /\ hasNextPage = true /\ isFetchingNextPage = false
      /\ exists t, target = Some t /\ t ∉ (id <$> imgs)
  | NavigateNotFound =>
      isLoading = false /\ imgs <> []
      /\ (hasNextPage = false \/ isFetchingNextPage = true)
      /\ exists t, target = Some t /\ t ∉ (id <$> imgs)
  | NoEffect =>
      isLoading = true \/ imgs = [] \/ truthyNumber target = false
  end.
Proof.
  intros target. subst target. unfold deepLinkEffect, targetImageId.
  destruct (truthyNumber initialImageId) eqn:Hinit;
    destruct (truthyString imageId) eqn:Hparam; simpl; auto.
  all: destruct isLoading; simpl; auto.
  all: destruct (Nat.eqb_spec (length imgs) 0) as [Hlen|Hlen]; simpl;
         [apply length_zero_iff_nil in Hlen; auto|].
  all: assert (imgs <> []) as Hne by (intros ->; by apply Hlen).
  all: match goal with
       | |- context [match ?o with Some _ => _ | None => NoEffect end] =>
           destruct o as [t|] eqn:Ht; simpl; auto
       end.
  all: destruct (Z.eqb_spec t 0) as [->|Hnz]; simpl; auto.
  all: assert (truthyNumber (Some t) = true) as Htt
         by (simpl; by destruct (Z.eqb_spec t 0)).
  all: destruct (list_find _ imgs) as [[k x]|] eqn:Hk.
  all: try (apply list_find_Some in Hk as (Hk & Hx & _);
            split_and!; [done|by eapply list_elem_of_lookup_2|by rewrite Hx]).
  all: apply list_find_None in Hk; rewrite Forall_forall in Hk.
  all: assert (t ∉ (id <$> imgs)) as Habs
         by (intros [y [-> Hy]]%list_elem_of_fmap; by apply (Hk y Hy)).
  all: destruct hasNextPage, isFetchingNextPage; simpl;
         split_and!; eauto.
Qed.

(** What each outcome of the deep-link effect means: it opens only an
    image of the Collection that carries the target id; it asks for the
    next page only when there is one, none is being fetched and the target
    is not loaded; it goes to the 404 route only for a target that is not
    loaded; and it stays idle only while loading, over an empty Collection
    or without a target. *)
Theorem deepLinkEffect_outcomes (initialImageId : option Z)
    (imageId : option string) (isLoading : bool) (imgs : list GalleryImage)
    (hasNextPage isFetchingNextPage : bool) :
  let target := targetImageId initialImageId imageId in
  match deepLinkEffect initialImageId imageId isLoading imgs hasNextPage
          isFetchingNextPage with
  | OpenLightbox image =>
      isLoading = false /\ image ∈ imgs /\ target = Some (id image)
  | FetchNextPage =>
      isLoading = false /\ hasNextPage = true /\ isFetchingNextPage = false
      /\ exists t, target = Some t /\ t ∉ (id <$> imgs)
  | NavigateNotFound =>
      isLoading = false /\ imgs <> []
      /\ (hasNextPage = false \/ isFetchingNextPage = true)
      /\ exists t, target = Some t /\ t ∉ (id <$> imgs)
  | NoEffect =>
      isLoading = true \/ imgs = [] \/ truthyNumber target = false
  end.
Proof. apply deepLinkEffect_cases. Qed.

Lemma truthyString_toString (z : Z) :
  truthyString (Some (JS.toString z)) = true.
Proof.
  pose proof (toString_nonempty z). simpl. by destruct (JS.toString z).
Qed.

(** The address written for an image is read back to the same image: the
    path pushed by a click on an image of the Collection with a positive
    id is [/gallery/] and the decimal id; with that segment in the address
    the page does not redirect, the deep-link effect of the loaded
    container opens an image with that id, and the effect that keeps the
    address in step with the lightbox has nothing to replace. *)
Theorem deep_link_round_trip (imgs : list GalleryImage) (image : GalleryImage)
    (triggerElement activeElement : option useLightbox.HTMLElement)
    (st : useLightbox.State) (hasNextPage isFetchingNextPage : bool) :
  image ∈ imgs -> 0 < id image ->
  exists segment,
    snd (handleImageClick imgs image triggerElement activeElement st)
    = "/gallery/" ++ segment
    /\ GalleryPage.validateEffect (Some segment) = false
    /\ (exists shown,
          deepLinkEffect (GalleryPage.initialImageId (Some segment))
            (Some segment) false imgs hasNextPage isFetchingNextPage
          = OpenLightbox shown
          /\ id shown = id image)
    /\ urlSyncEffect true (Some image) (Some segment) = None.
Proof.
  intros Himg Hpos. exists (JS.toString (id image)).
  pose proof (truthyString_toString (id image)) as Htruthy.
  pose proof (parseInt_toString (id image)) as Hparse.
  split_and!.
  - reflexivity.
  - unfold GalleryPage.validateEffect. rewrite Htruthy. simpl.
    rewrite Hparse. lia.
  - unfold GalleryPage.initialImageId. rewrite Htruthy. simpl.
    rewrite Hparse.
    destruct (deepLinkEffect_found (id image) (Some (JS.toString (id image)))
                imgs hasNextPage isFetchingNextPage) as (shown & Heq & _ & Hid);
      [lia|apply list_elem_of_fmap; eauto|].
    exists shown. by split.
  - unfold urlSyncEffect. rewrite Htruthy. simpl. rewrite Hparse.
    by destruct (decide _).
Qed.

(** Once everything is loaded, every address with an image segment is
    settled, over a Collection that is not empty: the page redirects to
    the 404 route, or the container opens the image whose id the segment
    reads as, or the container goes to the 404 route. *)
Theorem deep_link_settles (imgs : list GalleryImage) (segment : string)
    (isFetchingNextPage : bool) :
  imgs <> [] -> segment <> EmptyString ->
  let effect :=
    deepLinkEffect (GalleryPage.initialImageId (Some segment)) (Some segment)
      false imgs false isFetchingNextPage in
  GalleryPage.validateEffect (Some segment) = true
  \/ (exists image,
        effect = OpenLightbox image /\ image ∈ imgs
        /\ parseInt segment = Some (id image))
  \/ effect = NavigateNotFound.
Proof.
  intros Hne Hseg effect.
  assert (truthyString (Some segment) = true) as Htruthy
    by (by destruct segment).
  unfold GalleryPage.validateEffect. rewrite Htruthy. simpl.
  destruct (parseInt segment) as [parsed|] eqn:Hparse; [|by left].
  destruct (Z.leb_spec parsed 0) as [|Hpos]; [by left|]. right.
  pose proof (deepLinkEffect_cases
                (GalleryPage.initialImageId (Some segment)) (Some segment)
                false imgs false isFetchingNextPage) as Hout.
  simpl in Hout. fold effect in Hout.
  assert (targetImageId (GalleryPage.initialImageId (Some segment))
            (Some segment) = Some parsed) as Htarget.
  { unfold targetImageId, GalleryPage.initialImageId.
    rewrite Htruthy. simpl. rewrite Hparse. simpl.
    by destruct (Z.eqb_spec parsed 0). }
  rewrite Htarget in Hout.
  destruct effect as [|image| |].
  - destruct Hout as [|[|Hf]]; [done..|].
    simpl in Hf. destruct (Z.eqb_spec parsed 0); [lia|done].
  - left. exists image. destruct Hout as (_ & Hin & Hid). by simplify_eq.
  - by destruct Hout as (_ & ? & _).
  - by right.
Qed.

End DeepLinkMore.

Section DeepLinkMoreWitnesses.

Import GalleryContainer GalleryContainerUrl.

Local Open Scope string_scope.

Lemma deep_link_round_trip_witness :
  let imgs := Sample.mockImages in
  let image := Sample.image 2 in
  exists segment,
    snd (handleImageClick imgs image None None (useLightbox.init 0))
    = "/gallery/" ++ segment
    /\ GalleryPage.validateEffect (Some segment) = false
    /\ (exists shown,
          deepLinkEffect (GalleryPage.initialImageId (Some segment))
            (Some segment) false imgs true false
          = OpenLightbox shown
          /\ id shown = id image)
    /\ urlSyncEffect true (Some image) (Some segment) = None.
Proof.
  intros imgs image.
  apply (deep_link_round_trip imgs image None None (useLightbox.init 0)
           true false).
  - unfold imgs, image, Sample.mockImages. simpl. set_solver.
  - simpl. lia.
Defined.

Lemma deep_link_settles_witness :
  let imgs := Sample.mockImages in
  let effect :=
    deepLinkEffect (GalleryPage.initialImageId (Some "999")) (Some "999")
      false imgs false false in
  GalleryPage.validateEffect (Some "999") = true
  \/ (exists image,
        effect = OpenLightbox image /\ image ∈ imgs
        /\ parseInt "999" = Some (id image))
  \/ effect = NavigateNotFound.
Proof.
  intros imgs.
  apply (deep_link_settles imgs "999" false); discriminate.
Defined.

End DeepLinkMoreWitnesses.

(** ** The swipe recogniser: [useSwipe] *)

Section Swipe.

Import useSwipe.

Local Open Scope R_scope.

Lemma ltb_true (a b : R) : ltb a b = true <-> a < b.
Proof. unfold ltb. destruct (Rlt_dec a b); split; (done || lra). Qed.

Lemma ltb_false (a b : R) : ltb a b = false <-> b <= a.
Proof. unfold ltb. destruct (Rlt_dec a b); split; (done || lra). Qed.

Ltac ltb_cases :=
  repeat match goal with
         | |- context [ltb ?a ?b] =>
             let H := fresh "Hlt" in
             destruct (ltb a b) eqn:H;
             [apply ltb_true in H | apply ltb_false in H]
         end.

Lemma touchend_cases (o : SwipeOptions) (now : R) (st : TouchState) :
  startTime st < now ->
  let deltaX := currentX st - startX st in
  let deltaY := currentY st - startY st in
  let distance := sqrt (deltaX * deltaX + deltaY * deltaY) in
  let enough :=
    threshold o <= distance
    /\ velocityThreshold o <= distance / (now - startTime st) in
  let result := handleTouchEnd o now (Some st) in
  fst result = None
  /\ (snd result = Some SwipeRight <->
      enough /\ Rabs deltaY < Rabs deltaX /\ 0 < deltaX
      /\ onSwipeRight o = true)
  /\ (snd result = Some SwipeLeft <->
      enough /\ Rabs deltaY < Rabs deltaX /\ deltaX < 0
      /\ onSwipeLeft o = true)
  /\ (snd result = Some SwipeDown <->
      enough /\ Rabs deltaX <= Rabs deltaY /\ 0 < deltaY
      /\ onSwipeDown o = true)
  /\ (snd result = Some SwipeUp <->
      enough /\ Rabs deltaX <= Rabs deltaY /\ deltaY < 0
      /\ onSwipeUp o = true).
Proof.
  intros Htime deltaX deltaY distance enough result.
  subst result enough. unfold handleTouchEnd, velocityBelow.
  fold deltaX deltaY. fold distance.
  destruct (Req_dec_T (now - startTime st) 0) as [E|_]; [lra|].
  generalize dependent distance. intros distance.
  generalize (Rabs deltaX) (Rabs deltaY). intros ax ay.
  generalize dependent deltaX. generalize dependent deltaY.
  intros deltaY deltaX.
  generalize (distance / (now - startTime st)). intros velocity.
  ltb_cases; simpl;
    destruct (onSwipeRight o), (onSwipeLeft o), (onSwipeDown o),
      (onSwipeUp o); simpl;
    repeat split; try discriminate; try tauto; try lra;
    intros; repeat match goal with H : _ /\ _ |- _ => destruct H end;
    try discriminate; try lra.
Qed.

(** What a [touchend] after a touch that lasted some time raises, for
    every option and touch: the ref is cleared; a callback is called
    exactly when the touch moved at least [threshold] pixels at no less
    than [velocityThreshold] pixels per millisecond and the callback of its
    direction was given, the direction being horizontal when the
    horizontal displacement is the larger one and vertical otherwise. *)
Theorem touchend_swipe (o : SwipeOptions) (now : R) (st : TouchState) :
  startTime st < now ->
  let deltaX := currentX st - startX st in
  let deltaY := currentY st - startY st in
  let distance := sqrt (deltaX * deltaX + deltaY * deltaY) in
  let enough :=
    threshold o <= distance
    /\ velocityThreshold o <= distance / (now - startTime st) in
  let result := handleTouchEnd o now (Some st) in
  fst result = None
  /\ (snd result = Some SwipeRight <->
      enough /\ Rabs deltaY < Rabs deltaX /\ 0 < deltaX
      /\ onSwipeRight o = true)
  /\ (snd result = Some SwipeLeft <->
      enough /\ Rabs deltaY < Rabs deltaX /\ deltaX < 0
      /\ onSwipeLeft o = true)
  /\ (snd result = Some SwipeDown <->
      enough /\ Rabs deltaX <= Rabs deltaY /\ 0 < deltaY
      /\ onSwipeDown o = true)
  /\ (snd result = Some SwipeUp <->
      enough /\ Rabs deltaX <= Rabs deltaY /\ deltaY < 0
      /\ onSwipeUp o = true).
Proof. apply touchend_cases. Qed.

(** In the lightbox no vertical swipe calls anything; a swipe that calls
    [onNext] went to the left and one that calls [onPrevious] went to the
    right. *)
Theorem lightbox_swipe_directions (onPrevious onNext : bool) (now : R)
    (ref : option TouchState) :
  let result := handleTouchEnd (lightboxOptions onPrevious onNext) now ref in
  snd result <> Some SwipeUp
  /\ snd result <> Some SwipeDown
  /\ (snd result = Some SwipeLeft ->
      onNext = true
      /\ exists st, ref = Some st /\ currentX st < startX st)
  /\ (snd result = Some SwipeRight ->
      onPrevious = true
      /\ exists st, ref = Some st /\ startX st < currentX st).
Proof.
  intros result. subst result. destruct ref as [st|]; [|done].
  unfold handleTouchEnd, lightboxOptions; simpl.
  destruct (_ || _); [done|].
  ltb_cases; simpl; destruct onPrevious, onNext; simpl.
  all: split; [discriminate|]; split; [discriminate|].
  all: split; intros [=]; split; try done; exists st; split; try done; lra.
Qed.

(** A straight drag to the left of 50 pixels or more, at 0.3 pixels per
    millisecond or more, calls [onNext] in the lightbox. *)
Theorem lightbox_drag_left_is_next (onPrevious : bool) (now : R)
    (st : TouchState) :
  currentY st = startY st ->
  50 <= startX st - currentX st ->
  startTime st < now ->
  3 / 10 * (now - startTime st) <= startX st - currentX st ->
  handleTouchEnd (lightboxOptions onPrevious true) now (Some st)
  = (None, Some SwipeLeft).
Proof.
  intros Hy Hx Ht Hv.
  destruct (touchend_cases (lightboxOptions onPrevious true) now st Ht)
    as (_ & _ & Hleft & _).
  destruct (handleTouchEnd _ now (Some st)) as [ref' ev] eqn:E.
  assert (ref' = None) as ->.
  { pose proof (touchend_cases (lightboxOptions onPrevious true) now st Ht)
      as (Hfst & _). by rewrite E in Hfst. }
  f_equal. simpl in Hleft. apply Hleft.
  replace (currentY st - startY st) with 0 by lra.
  replace ((currentX st - startX st) * (currentX st - startX st) + 0 * 0)
    with ((startX st - currentX st) * (startX st - currentX st)) by ring.
  rewrite sqrt_square by lra.
  rewrite Rabs_R0, Rabs_left by lra.
  split_and!; try lra; try done.
  apply (Rmult_le_reg_r (now - startTime st)); [lra|].
  replace ((startX st - currentX st) / (now - startTime st)
           * (now - startTime st))
    with (startX st - currentX st) by (field; lra).
  simpl. lra.
Qed.

Lemma moves_keep_start (positions : list (R * R)) (st : TouchState) :
  fold_left (fun r touch => handleTouchMove (Some touch) r) positions (Some st)
  = Some {| startX := startX st; startY := startY st;
            startTime := startTime st;
            currentX := fst (default (currentX st, currentY st)
                               (last positions));
            currentY := snd (default (currentX st, currentY st)
                               (last positions)) |}.
Proof.
  revert st. induction positions as [|[x y] l IH]; intros st.
  - by destruct st.
  - simpl fold_left. rewrite IH. simpl.
    destruct l as [|q l]; [reflexivity|]. rewrite !last_cons_cons.
    destruct (last (q :: l)) as [p|] eqn:E; [done|]. by apply last_None in E.
Qed.

(** A gesture that ends where it began, a tap among them: after the
    [touchstart] and any number of [touchmove]s of which the last is back at
    the start, the ref holds the start position as the current one, and
    [touchend] calls no callback and clears the ref, whatever the options
    and the time the gesture took. *)
Theorem gesture_back_at_start_is_no_swipe (o : SwipeOptions)
    (start : R * R) (t0 now : R) (positions : list (R * R))
    (ref : option TouchState) :
  default start (last positions) = start ->
  track start t0 positions ref
  = Some {| startX := fst start; startY := snd start; startTime := t0;
            currentX := fst start; currentY := snd start |}
  /\ handleTouchEnd o now (track start t0 positions ref) = (None, None).
Proof.
  intros Hback.
  assert (Htrack : track start t0 positions ref
                   = Some {| startX := fst start; startY := snd start;
                             startTime := t0; currentX := fst start;
                             currentY := snd start |}).
  { unfold track, handleTouchStart. destruct start as [x0 y0].
    rewrite moves_keep_start. simpl. by rewrite Hback. }
  split; [done|]. rewrite Htrack. unfold handleTouchEnd. simpl.
  rewrite !Rminus_diag.
  destruct (_ || _); [done|].
  assert (ltb (Rabs 0) (Rabs 0) = false) as -> by (apply ltb_false; lra).
  assert (ltb 0 0 = false) as -> by (apply ltb_false; lra).
  done.
Qed.

End Swipe.

Section SwipeWitnesses.

Import useSwipe.

Local Open Scope R_scope.

Lemma lightbox_drag_left_is_next_witness :
  handleTouchEnd (lightboxOptions true true) 150
    (Some {| startX := 300; startY := 200; startTime := 0;
             currentX := 200; currentY := 200 |})
  = (None, Some SwipeLeft).
Proof.
  apply (lightbox_drag_left_is_next true 150
           {| startX := 300; startY := 200; startTime := 0;
              currentX := 200; currentY := 200 |}); simpl; lra.
Defined.

Lemma touchend_swipe_witness :
  let o := lightboxOptions true true in
  let st := {| startX := 300; startY := 200; startTime := 0;
               currentX := 200; currentY := 200 |} in
  let deltaX := currentX st - startX st in
  let deltaY := currentY st - startY st in
  let distance := sqrt (deltaX * deltaX + deltaY * deltaY) in
  let enough :=
    threshold o <= distance
    /\ velocityThreshold o <= distance / (150 - startTime st) in
  let result := handleTouchEnd o 150 (Some st) in
  fst result = None
  /\ (snd result = Some SwipeRight <->
      enough /\ Rabs deltaY < Rabs deltaX /\ 0 < deltaX
      /\ onSwipeRight o = true)
  /\ (snd result = Some SwipeLeft <->
      enough /\ Rabs deltaY < Rabs deltaX /\ deltaX < 0
      /\ onSwipeLeft o = true)
  /\ (snd result = Some SwipeDown <->
      enough /\ Rabs deltaX <= Rabs deltaY /\ 0 < deltaY
      /\ onSwipeDown o = true)
  /\ (snd result = Some SwipeUp <->
      enough /\ Rabs deltaX <= Rabs deltaY /\ deltaY < 0
      /\ onSwipeUp o = true).
Proof.
  intros o st.
  apply (touchend_swipe o 150 st). simpl. lra.
Defined.

Lemma gesture_back_at_start_is_no_swipe_witness :
  let positions := [(140, 20); (100, 20)]%R in
  track (100, 20)%R 0 positions None
  = Some {| startX := 100; startY := 20; startTime := 0;
            currentX := 100; currentY := 20 |}
  /\ handleTouchEnd defaultOptions 400 (track (100, 20)%R 0 positions None)
     = (None, None).
Proof.
  intros positions.
  apply (gesture_back_at_start_is_no_swipe defaultOptions (100, 20)%R 0 400
           positions None).
  reflexivity.
Defined.

End SwipeWitnesses.

(** ** More of [usePinchZoom] *)

Section PinchMore.

Import JSNumber usePinchZoom.

Local Open Scope R_scope.

Variable o : PinchZoomOptions.
Variables lo hi : R.
Hypothesis Hlo : minScale o = Fin lo.
Hypothesis Hhi : maxScale o = Fin hi.
Hypothesis Hle : lo <= hi.

Lemma clampedScale_within (x : R) : scaleWithin lo hi (clampedScale o (Fin x)).
Proof.
  rewrite (clampedScale_clamp o lo hi) by done. unfold clamp. simpl.
  repeat destruct (Rlt_dec _ _); lra.
Qed.

Lemma applyUpdates_within (us : list Update) (s : JSNumber.t)
    (r : option PinchState.t) :
  scaleWithin lo hi s -> refWithin lo hi r ->
  Forall (updateWithin lo hi) us ->
  scaleWithin lo hi (fst (fold_left applyUpdate us (s, r)))
  /\ refWithin lo hi (snd (fold_left applyUpdate us (s, r))).
Proof.
  intros Hs Hr Hus. revert s r Hs Hr.
  induction Hus as [|u us Hu _ IH]; intros s r Hs Hr; [done|].
  destruct u as [v|d0 t1 t2]; simpl; by apply IH.
Qed.

Lemma handleTouchMove_within (ts : list Touch) (h : Hook) :
  hookWithin lo hi h ->
  hookWithin lo hi (fst (handleTouchMove o ts h))
  /\ forall v, snd (handleTouchMove o ts h) = Some v -> scaleWithin lo hi v.
Proof.
  intros Hh. pose proof Hh as (Hs & Hq & Hr). unfold handleTouchMove.
  destruct (pinchStateRef h) as [[d0 s0 tt]|] eqn:E; [|done].
  destruct ts as [|t1 [|t2 [|t3 ts]]]; try done.
  destruct Hr as [Hd0 Hs0]. simpl in Hd0, Hs0.
  destruct s0 as [x| | |]; try done. simpl.
  unfold divide. destruct (Req_dec_T d0 0) as [E0|_]; [lra|]. simpl.
  split.
  - split_and!; [done| |simpl; rewrite E; by split].
    apply Forall_app. split; [done|]. repeat constructor.
    apply clampedScale_within.
  - intros v [= <-]. apply clampedScale_within.
Qed.

Lemma reset_within (s : R) (h : Hook) :
  initialScale o = Fin s -> hookWithin lo hi h ->
  hookWithin lo hi (fst (reset o h))
  /\ forall v, snd (reset o h) = Some v -> scaleWithin lo hi v.
Proof.
  intros Hinit (Hs & Hq & Hr). unfold reset, updateScale. rewrite Hinit.
  simpl. split.
  - split_and!; [done| |done].
    apply Forall_app. split; [done|]. repeat constructor.
    apply clampedScale_within.
  - intros v [= <-]. apply clampedScale_within.
Qed.

Lemma step_within (s : R) (h : Hook) (ev : Event) :
  initialScale o = Fin s -> apartStart ev -> hookWithin lo hi h ->
  hookWithin lo hi (step o h ev).
Proof.
  intros Hinit Hev Hh. destruct ev as [ts|ts|ts| |]; simpl.
  - destruct Hh as (Hs & Hq & Hr).
    destruct ts as [|t1 [|t2 [|t3 ts]]]; try done.
    split_and!; [done| |done]. apply Forall_app. by repeat constructor.
  - by apply handleTouchMove_within.
  - unfold handleTouchEnd. destruct Hh as (Hs & Hq & Hr).
    by destruct (_ <? _)%nat.
  - by apply (reset_within s).
  - destruct Hh as (Hs & Hq & Hr).
    destruct (applyUpdates_within (updates h) (scale h) (pinchStateRef h))
      as [H1 H2]; done.
Qed.

(** The scale never leaves the interval: with finite
    [minScale <= maxScale] and an initial scale inside, after any touches,
    resets and renders in which every [touchstart] with two touches has
    them at two different points, the scale is a number of
    [[minScale, maxScale]], before and after React runs what waits, and so
    is every scale given to [onScaleChange]. *)
Theorem scale_stays_in_range (s : R) (evs : list Event) (ev : Event) :
  initialScale o = Fin s -> lo <= s <= hi ->
  Forall apartStart evs ->
  let h := run o evs (init o) in
  scaleWithin lo hi (scale h)
  /\ scaleWithin lo hi (scale (flushUpdates h))
  /\ forall v, emitted o h ev = Some v -> scaleWithin lo hi v.
Proof.
  intros Hinit Hs Hevs h.
  assert (hookWithin lo hi h) as Hh.
  { subst h.
    assert (hookWithin lo hi (init o)) as H0
      by (unfold init; rewrite Hinit; by split_and!).
    revert H0. generalize (init o).
    induction Hevs as [|e evs He _ IH]; intros h0 Hh0; [done|].
    apply IH. by apply (step_within s). }
  split_and!.
  - apply Hh.
  - destruct Hh as (H1 & H2 & H3).
    by apply (applyUpdates_within (updates h) (scale h) (pinchStateRef h)).
  - intros v. destruct ev as [ts|ts|ts| |]; simpl; try done.
    + by apply (handleTouchMove_within ts h).
    + by apply (reset_within s h).
Qed.

(** Lifting a finger ends the gesture: after a [touchend] that leaves
    fewer than two touches, or a [touchstart] with another number of
    touches than two, with no updater of an earlier [touchstart] still
    waiting to be run, the ref holds nothing through every move, reset and
    render, and no [touchmove] changes the hook or reports a scale,
    whatever touches it carries. *)
Theorem ended_gesture_ignores_moves (h : Hook) (left started : list Touch)
    (evs : list Event) (last : list Touch) :
  Forall setsValue (updates h) ->
  (length left < 2)%nat -> length started <> 2%nat ->
  Forall keepsGesture evs ->
  let ended := run o evs (handleTouchEnd left h) in
  let restarted := run o evs (handleTouchStart started h) in
  (pinchStateRef ended = None
   /\ handleTouchMove o last ended = (ended, None))
  /\ (pinchStateRef restarted = None
      /\ handleTouchMove o last restarted = (restarted, None)).
Proof.
  intros Hq Hleft Hstarted Hevs ended restarted.
  assert (forall h0, pinchStateRef h0 = None ->
            Forall setsValue (updates h0) ->
            pinchStateRef (run o evs h0) = None
            /\ handleTouchMove o last (run o evs h0) = (run o evs h0, None))
    as Hnone.
  { intros h0 Hh0 Hq0.
    destruct (run_keeps_gesture o evs h0 Hevs Hq0) as [Href _].
    rewrite Hh0 in Href. split; [done|].
    unfold handleTouchMove. by rewrite Href. }
  split.
  - apply Hnone.
    + unfold handleTouchEnd.
      destruct (Nat.ltb_spec (length left) 2); [done|lia].
    + unfold handleTouchEnd. by destruct (_ <? _)%nat.
  - apply Hnone; by destruct started as [|t1 [|t2 [|t3 ts]]].
Qed.

(** A gesture begun with both touches on one point has distance 0: with
    a positive scale in effect, a move whose touches coincide too emits
    [NaN], which the clamp keeps and React stores, and a move whose touches
    are apart emits [maxScale]. A gesture that begins while the scale is
    [NaN] emits [NaN] at every move with two touches. *)
Theorem coincident_start_touches (h : Hook) (a c d : Touch) (s0 : R) :
  0 < s0 -> scale (flushUpdates h) = Fin s0 ->
  let began := flushUpdates (handleTouchStart [a; a] h) in
  let poisoned := fst (handleTouchMove o [c; c] began) in
  snd (handleTouchMove o [c; c] began) = Some NaN
  /\ scale (flushUpdates poisoned) = NaN
  /\ (clientX c <> clientX d \/ clientY c <> clientY d ->
      snd (handleTouchMove o [c; d] began) = Some (Fin hi))
  /\ forall a' b' c' d',
       snd (handleTouchMove o [c'; d']
              (flushUpdates (handleTouchStart [a'; b'] poisoned)))
       = Some NaN.
Proof.
  intros Hs0 Hscale began poisoned.
  assert (forall p : Touch, getDistance p p = 0) as Hzero.
  { intros p. unfold getDistance. rewrite !Rminus_diag.
    replace (0 * 0 + 0 * 0) with 0 by ring. apply sqrt_0. }
  assert (began = {| scale := Fin s0; updates := [];
                     pinchStateRef :=
                       Some {| PinchState.initialDistance := 0;
                               PinchState.initialScale := Fin s0;
                               PinchState.touches := (a, a) |} |}) as Hbegan
    by (subst began; by rewrite flushUpdates_handleTouchStart, Hscale, Hzero).
  assert (clampedScale o NaN = NaN) as Hnan
    by (unfold clampedScale; rewrite Hlo, Hhi; done).
  assert (handleTouchMove o [c; c] began
          = (setScale (SetTo NaN) began, Some NaN)) as Hmove.
  { rewrite Hbegan. unfold handleTouchMove, updateScale. simpl.
    rewrite Hzero. unfold divide.
    destruct (Req_dec_T 0 0) as [_|E]; [|lra]. simpl. by rewrite Hnan. }
  assert (scale (flushUpdates poisoned) = NaN) as Hpoisoned.
  { subst poisoned. rewrite Hmove, Hbegan. reflexivity. }
  split_and!.
  - by rewrite Hmove.
  - done.
  - intros Hapart. rewrite Hbegan. unfold handleTouchMove, updateScale. simpl.
    assert (0 < getDistance c d) as Hcd.
    { unfold getDistance. apply sqrt_lt_R0.
      pose proof (Rle_0_sqr (clientX d - clientX c)) as Hx2.
      pose proof (Rle_0_sqr (clientY d - clientY c)) as Hy2.
      destruct Hapart as [Hx|Hy].
      - pose proof (Rsqr_pos_lt (clientX d - clientX c) ltac:(lra)).
        unfold Rsqr in *. lra.
      - pose proof (Rsqr_pos_lt (clientY d - clientY c) ltac:(lra)).
        unfold Rsqr in *. lra. }
    unfold divide. destruct (Req_dec_T 0 0) as [_|E]; [|lra].
    destruct (Req_dec_T (getDistance c d) 0) as [E|_]; [lra|].
    destruct (Rlt_dec 0 (getDistance c d)) as [_|E]; [|lra].
    simpl. unfold timesInfinity. destruct (Rlt_dec 0 s0) as [_|E]; [|lra].
    unfold clampedScale. rewrite Hlo, Hhi. unfold max, min, ltb.
    destruct (Rlt_dec lo hi); [done|]. do 2 f_equal. lra.
  - intros a' b' c' d'.
    rewrite flushUpdates_handleTouchStart, Hpoisoned.
    unfold handleTouchMove, updateScale. simpl.
    by rewrite Hnan.
Qed.

End PinchMore.

Section PinchMoreWitnesses.

Import JSNumber usePinchZoom.

Local Open Scope R_scope.

Lemma scale_stays_in_range_witness :
  let o := defaultOptions in
  let a := {| clientX := 0; clientY := 0 |} in
  let b := {| clientX := 100; clientY := 0 |} in
  let c := {| clientX := 900; clientY := 0 |} in
  let h := run o [TouchStart [a; b]; Flush; TouchMove [a; c]] (init o) in
  scaleWithin 1 5 (scale h)
  /\ scaleWithin 1 5 (scale (flushUpdates h))
  /\ forall v, emitted o h Reset = Some v -> scaleWithin 1 5 v.
Proof.
  intros o a b c.
  apply (scale_stays_in_range o 1 5 eq_refl eq_refl ltac:(lra) 1
           [TouchStart [a; b]; Flush; TouchMove [a; c]] Reset eq_refl
           ltac:(lra)).
  repeat constructor. unfold apartStart, a, b.
  rewrite getDistance_horizontal; lra.
Defined.

Lemma ended_gesture_ignores_moves_witness :
  let o := defaultOptions in
  let a := {| clientX := 0; clientY := 0 |} in
  let b := {| clientX := 100; clientY := 0 |} in
  let h := flushUpdates (handleTouchStart [a; b] (init o)) in
  let evs := [TouchMove [a; b]; Flush; Reset] in
  let ended := run o evs (handleTouchEnd [a] h) in
  let restarted := run o evs (handleTouchStart [a; b; a] h) in
  (pinchStateRef ended = None
   /\ handleTouchMove o [a; b] ended = (ended, None))
  /\ (pinchStateRef restarted = None
      /\ handleTouchMove o [a; b] restarted = (restarted, None)).
Proof.
  intros o a b h evs.
  apply (ended_gesture_ignores_moves o h [a] [a; b; a] evs [a; b]).
  - constructor.
  - simpl. lia.
  - simpl. lia.
  - repeat constructor.
Defined.

Lemma coincident_start_touches_witness :
  let o := defaultOptions in
  let a := {| clientX := 10; clientY := 10 |} in
  let c := {| clientX := 0; clientY := 0 |} in
  let d := {| clientX := 5; clientY := 0 |} in
  let began := flushUpdates (handleTouchStart [a; a] (init o)) in
  let poisoned := fst (handleTouchMove o [c; c] began) in
  snd (handleTouchMove o [c; c] began) = Some NaN
  /\ scale (flushUpdates poisoned) = NaN
  /\ (clientX c <> clientX d \/ clientY c <> clientY d ->
      snd (handleTouchMove o [c; d] began) = Some (Fin 5))
  /\ forall a' b' c' d',
       snd (handleTouchMove o [c'; d']
              (flushUpdates (handleTouchStart [a'; b'] poisoned)))
       = Some NaN.
Proof.
  intros o a c d.
  apply (coincident_start_touches o 1 5 eq_refl eq_refl ltac:(lra)
           (init o) a c d 1); [lra|reflexivity].
Defined.

End PinchMoreWitnesses.

(** ** What the grids render *)

Section Render.

Import VirtualizedGalleryGrid VirtualizedRender.

Lemma relativeIndex_range (len i : Z) :
  0 <= len -> 0 <= JS.relativeIndex len i <= len.
Proof.
  intros Hl. unfold JS.relativeIndex. destruct (Z.ltb_spec i 0); lia.
Qed.

Lemma relativeIndex_inside (len i : Z) :
  0 <= i <= len -> JS.relativeIndex len i = i.
Proof.
  intros Hi. unfold JS.relativeIndex. destruct (Z.ltb_spec i 0); lia.
Qed.

(** A slice up to an index and the slice from it make the array again,
    for every index, negative ones and ones past the end too. *)
Lemma slice_split {A : Type} (l : list A) (k : Z) :
  JS.slice l 0 k ++ JS.sliceFrom l k = l.
Proof.
  unfold JS.sliceFrom, JS.slice.
  pose proof (relativeIndex_range (Z.of_nat (length l)) k ltac:(lia)) as Hk.
  rewrite (relativeIndex_inside _ 0) by lia.
  rewrite (relativeIndex_inside _ (Z.of_nat (length l))) by lia.
  set (j := JS.relativeIndex (Z.of_nat (length l)) k) in *.
  rewrite Z.sub_0_r. simpl drop.
  rewrite (take_ge (drop (Z.to_nat j) l)) by (rewrite length_drop; lia).
  apply take_drop.
Qed.

(** For a range inside the collection the window renders exactly the
    images of the range, in order, and the two spacers stand for all the
    others: rendered and spaced-out images add up to the collection. *)
Theorem window_renders_the_range (imgs : list GalleryImage) (r : Range) :
  0 <= start r -> start r <= end_ r -> end_ r <= Z.of_nat (length imgs) ->
  Z.of_nat (length (visibleImages imgs r)) = end_ r - start r
  /\ (forall k : nat, Z.of_nat k < end_ r - start r ->
        visibleImages imgs r !! k = imgs !! (Z.to_nat (start r) + k)%nat)
  /\ topSpacerHeight r + 300 * Z.of_nat (length (visibleImages imgs r))
     + bottomSpacerHeight imgs r
     = 300 * Z.of_nat (length imgs).
Proof.
  intros H0 H1 H2. unfold visibleImages, JS.slice.
  rewrite !relativeIndex_inside by lia.
  assert (Z.of_nat (length (take (Z.to_nat (end_ r - start r))
                              (drop (Z.to_nat (start r)) imgs)))
          = end_ r - start r) as Hlen
    by (rewrite length_take, length_drop; lia).
  split_and!.
  - exact Hlen.
  - intros k Hk. rewrite lookup_take_lt by lia. by rewrite lookup_drop.
  - rewrite Hlen. unfold topSpacerHeight, bottomSpacerHeight. lia.
Qed.

(** A range that starts at or after the end of the collection, as the
    scroll recomputation can produce, renders no image at all. *)
Theorem window_past_the_end_is_blank (imgs : list GalleryImage) (r : Range) :
  Z.of_nat (length imgs) <= start r ->
  visibleImages imgs r = [].
Proof.
  intros Hs. unfold visibleImages, JS.slice.
  assert (JS.relativeIndex (Z.of_nat (length imgs)) (start r)
          = Z.of_nat (length imgs)) as ->
    by (unfold JS.relativeIndex; destruct (Z.ltb_spec (start r) 0); lia).
  rewrite Nat2Z.id, drop_all. apply take_nil.
Qed.

(** The scroll handler never leaves the state more than one row away
    from the range it has just computed, at either end. *)
Theorem handleScroll_lag (w h y length : Z) (prev : Range) :
  let fresh := scrollRange w h y length in
  let st := handleScroll w h y length prev in
  Z.abs (start st - start fresh) <= itemsPerRow w
  /\ Z.abs (end_ st - end_ fresh) <= itemsPerRow w.
Proof.
  intros fresh st. subst st. unfold handleScroll. fold fresh.
  assert (0 < itemsPerRow w) as Hipr
    by (destruct (itemsPerRow_cases w) as [->|[->| ->]]; lia).
  destruct (_ || _) eqn:E.
  - rewrite !Z.sub_diag. simpl. lia.
  - apply orb_false_elim in E as [E1 E2].
    apply Z.ltb_ge in E1, E2. lia.
Qed.

End Render.

Section Grids.

Import VirtualizedGalleryGrid GalleryGrid.

Lemma priorityCount_pos (w h : Z) : 0 <= h -> 0 < priorityCount w h.
Proof.
  intros Hh. unfold priorityCount, imagesPerRow, orElse, ceilDiv.
  assert (0 < - (- (if h =? 0 then 800 else h) / 300)).
  { destruct (Z.eqb_spec h 0).
    - by vm_compute.
    - assert (- h / 300 < 0); [|lia].
      apply Z.div_lt_upper_bound; lia. }
  repeat match goal with |- context [if ?c then _ else _] => destruct c end; lia.
Qed.

(** The split of the grid into eager and lazy images loses nothing,
    repeats nothing and keeps the order: the two lists, one after the
    other, are the images; and the eager ones are the first
    [priorityCount], or all when there are fewer. *)
Theorem priority_split (imgs : list GalleryImage) (w h : Z) :
  allImages imgs w h = imgs
  /\ (0 <= h ->
      Z.of_nat (length (priorityImages imgs w h))
      = Z.min (Z.of_nat (length imgs)) (priorityCount w h)).
Proof.
  split.
  - unfold allImages, priorityImages, lazyImages.
    destruct imgs as [|i0 imgs']; [done|]. apply slice_split.
  - intros Hh. pose proof (priorityCount_pos w h Hh) as Hc.
    assert (priorityImages imgs w h = JS.slice imgs 0 (priorityCount w h))
      as ->.
    { destruct imgs; [|done]. unfold JS.slice. simpl. by rewrite take_nil. }
    unfold JS.slice.
    rewrite (relativeIndex_inside _ 0) by lia.
    change (Z.to_nat 0) with 0%nat. rewrite drop_0.
    rewrite length_take. unfold JS.relativeIndex.
    destruct (Z.ltb_spec (priorityCount w h) 0); lia.
Qed.

(** In the grid the arrow keys never take the focus outside the items and
    never wrap: a key that moves the focus moves it to another item of the
    grid at most one row away, and ArrowRight on the last item and
    ArrowLeft on the first move nothing. *)
Theorem grid_arrow_keys (key : Key) (w current count : Z) :
  0 <= current < count ->
  (forall next, handleKeyDown key w current count = Some next ->
     0 <= next < count /\ next <> current
     /\ Z.abs (next - current) <= itemsPerRow w)
  /\ handleKeyDown ArrowRight w (count - 1) count = None
  /\ handleKeyDown ArrowLeft w 0 count = None.
Proof.
  intros Hc.
  assert (1 <= itemsPerRow w <= 3) as Hipr
    by (destruct (itemsPerRow_cases w) as [->|[->| ->]]; lia).
  split_and!.
  - intros next. unfold handleKeyDown.
    destruct (Z.eqb_spec current (-1)); [lia|].
    destruct key; simpl;
      match goal with
      | |- context [negb (?a =? ?b)] => destruct (Z.eqb_spec a b)
      end; simpl; try done;
      match goal with
      | |- context [(0 <=? ?a)] => destruct (Z.leb_spec 0 a)
      end; simpl; try done;
      match goal with
      | |- context [(?a <? count)] => destruct (Z.ltb_spec a count)
      end; simpl; try done;
      intros [= <-]; lia.
  - unfold handleKeyDown.
    destruct (Z.eqb_spec (count - 1) (-1)); [lia|].
    replace (Z.min (count - 1 + 1) (count - 1)) with (count - 1) by lia.
    by rewrite Z.eqb_refl.
  - unfold handleKeyDown. simpl. done.
Qed.

(** In the keyboard grid the focused index, once on an image, stays on
    an image through every run of keys, at whatever widths they are
    pressed. *)
Theorem keyboard_grid_focus_stays_inside (length : Z)
    (keys : list (Key * Z)) (focused : Z) :
  0 <= focused < length ->
  exists index,
    keyboardGridRun length keys (Some focused) = Some index
    /\ 0 <= index < length.
Proof.
  intros Hf. revert focused Hf.
  induction keys as [|[key width] keys IH]; intros focused Hf.
  - exists focused. by split.
  - unfold keyboardGridRun. simpl.
    destruct (Z.eqb_spec length 0); [lia|].
    assert (1 <= getGridDimensions_columns width <= 4) as Hcol.
    { unfold getGridDimensions_columns.
      repeat match goal with |- context [if ?c then _ else _] => destruct c end;
        lia. }
    destruct key; apply IH; lia.
Qed.

End Grids.

Section GridWitnesses.

Import VirtualizedGalleryGrid VirtualizedRender GalleryGrid.

Lemma window_renders_the_range_witness :
  let imgs := Sample.mockImages in
  let r := {| start := 1; end_ := 3 |} in
  Z.of_nat (length (visibleImages imgs r)) = end_ r - start r
  /\ (forall k : nat, Z.of_nat k < end_ r - start r ->
        visibleImages imgs r !! k = imgs !! (Z.to_nat (start r) + k)%nat)
  /\ topSpacerHeight r + 300 * Z.of_nat (length (visibleImages imgs r))
     + bottomSpacerHeight imgs r
     = 300 * Z.of_nat (length imgs).
Proof.
  intros imgs r. apply (window_renders_the_range imgs r); simpl; lia.
Defined.

Lemma window_past_the_end_is_blank_witness :
  visibleImages Sample.mockImages (scrollRange 1200 800 17100 3) = [].
Proof.
  apply (window_past_the_end_is_blank Sample.mockImages
           (scrollRange 1200 800 17100 3)).
  by vm_compute.
Defined.

Lemma grid_arrow_keys_witness :
  (forall next, handleKeyDown ArrowDown 1200 1 5 = Some next ->
     0 <= next < 5 /\ next <> 1
     /\ Z.abs (next - 1) <= itemsPerRow 1200)
  /\ handleKeyDown ArrowRight 1200 (5 - 1) 5 = None
  /\ handleKeyDown ArrowLeft 1200 0 5 = None.
Proof. apply (grid_arrow_keys ArrowDown 1200 1 5). lia. Defined.

Lemma keyboard_grid_focus_stays_inside_witness :
  exists index,
    keyboardGridRun 5 [(ArrowDown, 1300); (End_, 1300); (ArrowRight, 600)]
      (Some 1)
    = Some index
    /\ 0 <= index < 5.
Proof.
  apply (keyboard_grid_focus_stays_inside 5
           [(ArrowDown, 1300); (End_, 1300); (ArrowRight, 600)] 1).
  lia.
Defined.

End GridWitnesses.

(** * The favourites and their URL *)

Section Favorites.

Import GalleryContainer FavoritesContext.

Lemma isFavorite_elem (favorites : list GalleryImage) (i : Z) :
  isFavorite favorites i = true <-> i ∈ id <$> favorites.
Proof.
  unfold isFavorite. induction favorites as [|img l IH]; simpl.
  - split; [discriminate | by intros ?%elem_of_nil].
  - rewrite elem_of_cons, orb_true_iff, IH, Z.eqb_eq. intuition.
Qed.

Lemma ids_filter_ne (i : Z) (l : list GalleryImage) :
  id <$> filter (fun img => id img <> i) l = filter (fun j => j <> i) (id <$> l).
Proof.
  induction l as [|img l IH]; [done|].
  rewrite fmap_cons, !filter_cons.
  destruct (decide (id img <> i)); [rewrite fmap_cons|]; by rewrite IH.
Qed.

Lemma ids_loadFavoritesFromUrl (favoriteIds : list Z)
    (prev : list GalleryImage) :
  id <$> loadFavoritesFromUrl favoriteIds prev
  = (id <$> prev) ++ filter (fun i => i ∉ id <$> prev) favoriteIds.
Proof.
  unfold loadFavoritesFromUrl. rewrite fmap_app. f_equal.
  rewrite <- list_fmap_compose. apply list_fmap_id.
Qed.

Lemma split_no_sep (sep : ascii) (s : string) :
  Forall (fun c => c <> sep) (list_ascii_of_string s) -> JS.split sep s = [s].
Proof.
  induction s as [|c s IH]; [done|]. simpl. intros [Hc Hs]%Forall_cons.
  destruct (Ascii.eqb_spec c sep); [done|]. by rewrite (IH Hs).
Qed.

Lemma split_app (sep : ascii) (s rest : string) :
  Forall (fun c => c <> sep) (list_ascii_of_string s) ->
  JS.split sep (s ++ String sep rest) = s :: JS.split sep rest.
Proof.
  induction s as [|c s IH]; simpl.
  - intros _. by rewrite Ascii.eqb_refl.
  - intros [Hc Hs]%Forall_cons.
    destruct (Ascii.eqb_spec c sep); [done|]. by rewrite (IH Hs).
Qed.

Lemma split_join (sep : ascii) (pieces : list string) :
  pieces <> [] ->
  Forall (fun s => Forall (fun c => c <> sep) (list_ascii_of_string s)) pieces ->
  JS.split sep (JS.join (String sep EmptyString) pieces) = pieces.
Proof.
  induction pieces as [|p [|q l] IH]; [done| |].
  - intros _ [Hp _]%Forall_cons. by apply split_no_sep.
  - intros _ [Hp Hl]%Forall_cons.
    change (JS.join (String sep EmptyString) (p :: q :: l))
      with (p ++ String sep (JS.join (String sep EmptyString) (q :: l)))%string.
    rewrite (split_app _ _ _ Hp). f_equal. by apply IH.
Qed.

Lemma string_of_uint_no_comma (d : Decimal.uint) :
  Forall (fun c => c <> ","%char)
    (list_ascii_of_string (NilEmpty.string_of_uint d)).
Proof. induction d; simpl; [constructor|..]; by constructor. Qed.

Lemma toString_no_comma (z : Z) :
  Forall (fun c => c <> ","%char) (list_ascii_of_string (JS.toString z)).
Proof.
  unfold JS.toString, NilZero.string_of_int, NilZero.string_of_uint.
  destruct (Z.to_int z) as [d|d]; [|constructor; [done|]];
    (destruct d; [by repeat constructor|..]; apply string_of_uint_no_comma).
Qed.

Lemma omap_parseInt_toString (ids : list Z) :
  omap parseInt (JS.toString <$> ids) = ids.
Proof.
  induction ids as [|z l IH]; [done|].
  rewrite fmap_cons. cbn [omap list_omap]. fold (omap parseInt (JS.toString <$> l)).
  by rewrite parseInt_toString, IH.
Qed.

Lemma isFavorite_loadFavoritesFromUrl (favoriteIds : list Z)
    (prev : list GalleryImage) (j : Z) :
  isFavorite (loadFavoritesFromUrl favoriteIds prev) j = true
  <-> isFavorite prev j = true \/ j ∈ favoriteIds.
Proof.
  rewrite !isFavorite_elem, ids_loadFavoritesFromUrl, elem_of_app,
    list_elem_of_filter.
  destruct (decide (j ∈ id <$> prev)); intuition.
Qed.

Lemma loadFavoritesFromUrl_known (favoriteIds : list Z)
    (prev : list GalleryImage) :
  Forall (fun i => i ∈ id <$> prev) favoriteIds ->
  loadFavoritesFromUrl favoriteIds prev = prev.
Proof.
  intros Hall. unfold loadFavoritesFromUrl.
  replace (filter (fun i => i ∉ id <$> prev) favoriteIds) with (@nil Z).
  - apply app_nil_r.
  - symmetry. induction Hall as [|i l Hi _ IH]; [done|].
    by rewrite filter_cons_False by tauto.
Qed.

(** Membership after each update: [addFavorite] adds the id of its
    image and [removeFavorite] takes its id out, leaving every other id as it
    was; [toggleFavorite] flips the membership of the id of its image, and of
    no other; after [clearFavorites] nothing is a favourite. *)
Theorem favorite_membership (image : GalleryImage)
    (favorites : list GalleryImage) (i j : Z) :
  isFavorite (addFavorite image favorites) j
  = isFavorite favorites j || (j =? id image)
  /\ isFavorite (removeFavorite i favorites) j
     = isFavorite favorites j && negb (j =? i)
  /\ isFavorite (toggleFavorite image favorites) j
     = (if j =? id image then negb (isFavorite favorites j)
        else isFavorite favorites j)
  /\ isFavorite (clearFavorites favorites) j = false.
Proof.
  assert (Hrm : forall k, isFavorite (removeFavorite k favorites) j
                          = isFavorite favorites j && negb (j =? k)).
  { intros k. apply eq_true_iff_eq. unfold removeFavorite.
    rewrite andb_true_iff, negb_true_iff, Z.eqb_neq, !isFavorite_elem,
      ids_filter_ne, list_elem_of_filter. tauto. }
  assert (Happ : isFavorite (favorites ++ [image]) j
                 = isFavorite favorites j || (j =? id image)).
  { apply eq_true_iff_eq.
    rewrite orb_true_iff, Z.eqb_eq, !isFavorite_elem, fmap_app, elem_of_app,
      list_fmap_singleton, list_elem_of_singleton. tauto. }
  split_and!; [| apply Hrm | | done].
  - unfold addFavorite.
    change (existsb _ favorites) with (isFavorite favorites (id image)).
    destruct (isFavorite favorites (id image)) eqn:E; [|done].
    destruct (Z.eqb_spec j (id image)) as [->|]; [|by rewrite orb_false_r].
    by rewrite E.
  - unfold toggleFavorite.
    change (existsb _ favorites) with (isFavorite favorites (id image)).
    cbv zeta. destruct (isFavorite favorites (id image)) eqn:E.
    + change (filter _ favorites) with (removeFavorite (id image) favorites).
      rewrite Hrm. destruct (Z.eqb_spec j (id image)) as [->|].
      * by rewrite E.
      * by rewrite andb_true_r.
    + rewrite Happ. destruct (Z.eqb_spec j (id image)) as [->|].
      * by rewrite E.
      * by rewrite orb_false_r.
Qed.

(** The ids of the favourites stay pairwise distinct under [addFavorite],
    [removeFavorite] and [toggleFavorite]; under [loadFavoritesFromUrl] they
    do exactly when the ids of the URL that are new are pairwise distinct:
    an id that the URL repeats becomes a favourite twice. *)
Theorem favorite_ids_stay_distinct (image : GalleryImage) (i : Z)
    (favoriteIds : list Z) (favorites : list GalleryImage) :
  NoDup (getFavoriteIds favorites) ->
  NoDup (getFavoriteIds (addFavorite image favorites))
  /\ NoDup (getFavoriteIds (removeFavorite i favorites))
  /\ NoDup (getFavoriteIds (toggleFavorite image favorites))
  /\ (NoDup (getFavoriteIds (loadFavoritesFromUrl favoriteIds favorites))
      <-> NoDup (filter (fun k => k ∉ getFavoriteIds favorites) favoriteIds)).
Proof.
  unfold getFavoriteIds. intros Hnd.
  assert (Hrm : forall k,
             NoDup (id <$> filter (fun img => id img <> k) favorites)).
  { intros k. rewrite ids_filter_ne. by apply NoDup_filter. }
  assert (Happ : isFavorite favorites (id image) = false ->
                 NoDup (id <$> favorites ++ [image])).
  { intros E. rewrite fmap_app. apply NoDup_app. split_and!; [done| |].
    - intros k Hk [->|[]%elem_of_nil]%elem_of_cons.
      apply isFavorite_elem in Hk. congruence.
    - apply NoDup_singleton. }
  split_and!.
  - unfold addFavorite.
    change (existsb _ favorites) with (isFavorite favorites (id image)).
    destruct (isFavorite favorites (id image)) eqn:E; auto.
  - apply Hrm.
  - unfold toggleFavorite.
    change (existsb _ favorites) with (isFavorite favorites (id image)).
    cbv zeta. destruct (isFavorite favorites (id image)) eqn:E; auto.
  - rewrite ids_loadFavoritesFromUrl, NoDup_app. split; [tauto|].
    intros Hnew. split_and!; [done| |done].
    intros k Hk [Hk' _]%list_elem_of_filter. done.
Qed.

(** [loadFavoritesFromUrl] keeps the favourites there are, in place, and
    appends one placeholder for every id of the URL that was no favourite:
    afterwards an id is a favourite exactly when it was one or the URL has
    it, and loading the same ids again changes nothing. *)
Theorem loadFavoritesFromUrl_adds_new_ids (favoriteIds : list Z)
    (prev : list GalleryImage) :
  take (length prev) (loadFavoritesFromUrl favoriteIds prev) = prev
  /\ getFavoriteIds (loadFavoritesFromUrl favoriteIds prev)
     = getFavoriteIds prev
       ++ filter (fun i => i ∉ getFavoriteIds prev) favoriteIds
  /\ (forall j, isFavorite (loadFavoritesFromUrl favoriteIds prev) j
                = isFavorite prev j || bool_decide (j ∈ favoriteIds))
  /\ loadFavoritesFromUrl favoriteIds (loadFavoritesFromUrl favoriteIds prev)
     = loadFavoritesFromUrl favoriteIds prev.
Proof.
  split_and!.
  - unfold loadFavoritesFromUrl. by rewrite take_app_length.
  - apply ids_loadFavoritesFromUrl.
  - intros j. apply eq_true_iff_eq.
    rewrite orb_true_iff, isFavorite_loadFavoritesFromUrl, bool_decide_eq_true.
    done.
  - apply loadFavoritesFromUrl_known, Forall_forall. intros j Hj.
    apply isFavorite_elem, isFavorite_loadFavoritesFromUrl. by right.
Qed.

(** The favourites survive the URL: the ids that the URL effect writes
    into the search parameter are read back, one for one and in order, by the
    effect that loads the parameter on mount. Read over the favourites that
    wrote it, the parameter changes nothing; read over no favourites, it
    gives favourites with the same ids. *)
Theorem favorites_url_round_trip (favorites prev : list GalleryImage) :
  loadFromUrlParam (urlParam favorites) prev
  = loadFavoritesFromUrl (getFavoriteIds favorites) prev
  /\ loadFromUrlParam (urlParam favorites) favorites = favorites
  /\ getFavoriteIds (loadFromUrlParam (urlParam favorites) [])
     = getFavoriteIds favorites.
Proof.
  assert (Hrt : forall prev', loadFromUrlParam (urlParam favorites) prev'
                = loadFavoritesFromUrl (getFavoriteIds favorites) prev').
  { intros prev'. unfold urlParam, getFavoriteIds.
    destruct favorites as [|img l].
    { unfold loadFavoritesFromUrl. simpl. by rewrite app_nil_r. }
    change (0 <? length (id <$> img :: l))%nat with true. cbv iota.
    unfold loadFromUrlParam.
    set (ids := id <$> img :: l).
    assert (Hne : JS.toString <$> ids <> []) by done.
    assert (Htruthy : truthyString
                        (Some (JS.join "," (JS.toString <$> ids))) = true).
    { unfold ids. rewrite !fmap_cons.
      pose proof (toString_nonempty (id img)) as Hs.
      destruct (JS.toString (id img)) as [|c s] eqn:E; [done|].
      simpl. by destruct (JS.toString <$> (id <$> l)). }
    rewrite Htruthy. cbv [from_option Datatypes.id].
    rewrite split_join; [|done|].
    - rewrite omap_parseInt_toString. done.
    - apply Forall_fmap, Forall_forall. intros z _. apply toString_no_comma. }
  split_and!.
  - apply Hrt.
  - rewrite Hrt. apply loadFavoritesFromUrl_known, Forall_forall.
    by intros j Hj.
  - rewrite Hrt, ids_loadFavoritesFromUrl. simpl.
    generalize (getFavoriteIds favorites). intros ids.
    induction ids as [|z l IH]; [done|].
    rewrite filter_cons_True by apply not_elem_of_nil. by f_equal.
Qed.

End Favorites.

Section FavoritesWitnesses.

Import FavoritesContext.

Lemma favorite_ids_stay_distinct_witness :
  let favorites := Sample.mockImages in
  NoDup (getFavoriteIds (addFavorite (Sample.image 7) favorites))
  /\ NoDup (getFavoriteIds (removeFavorite 2 favorites))
  /\ NoDup (getFavoriteIds (toggleFavorite (Sample.image 7) favorites))
  /\ (NoDup (getFavoriteIds (loadFavoritesFromUrl [2; 7; 7] favorites))
      <-> NoDup (filter (fun k => k ∉ getFavoriteIds favorites) [2; 7; 7])).
Proof.
  intros favorites.
  apply (favorite_ids_stay_distinct (Sample.image 7) 2 [2; 7; 7] favorites).
  apply (bool_decide_unpack _). vm_compute. exact I.
Defined.

End FavoritesWitnesses.

(** * The Cloudinary URLs *)

Section ImageUrls.

Import imageUtils.

Local Open Scope string_scope.

Lemma split_head_no_sep (sep : ascii) (s : string) :
  Forall (fun c => c <> sep) (list_ascii_of_string (hd "" (JS.split sep s))).
Proof.
  induction s as [|c s IH]; simpl; [constructor|].
  destruct (Ascii.eqb_spec c sep) as [->|Hc]; [constructor|].
  destruct (JS.split sep s) as [|piece pieces]; simpl in *.
  - by repeat constructor.
  - by constructor.
Qed.

Lemma baseUrl_query (cloudinaryUrl query : string) :
  baseUrl (baseUrl cloudinaryUrl ++ "?" ++ query) = baseUrl cloudinaryUrl.
Proof.
  unfold baseUrl at 1.
  change ("?" ++ query) with (String "?"%char query).
  by rewrite split_app by apply split_head_no_sep.
Qed.

Example buildCloudinaryTransform_all_options :
  buildCloudinaryTransform
    {| width := Some 800%Z; quality := Some QualityAuto;
       format := Some Webp; crop := Some Fill; gravity := Some Face |}
  = "w_800,q_auto,f_webp,c_fill,g_face"
  /\ generateLQIPUrl "https://res.cloudinary.com/demo/image.jpg?v=1"
     = "https://res.cloudinary.com/demo/image.jpg?w_50,q_1,f_auto,c_scale,e_blur:1000".
Proof. by vm_compute. Qed.

(** The generated URLs replace the query of a URL, they never stack on
    it: the part before the first [?] is kept, so optimising an optimised
    URL, or asking for the placeholder of a placeholder, gives the same URL
    again, and the placeholder of an optimised URL is the placeholder of the
    image. *)
Theorem optimized_url_replaces_query (cloudinaryUrl : string)
    (options : TransformOptions) :
  baseUrl (generateOptimizedImageUrl cloudinaryUrl options)
  = baseUrl cloudinaryUrl
  /\ baseUrl (generateLQIPUrl cloudinaryUrl) = baseUrl cloudinaryUrl
  /\ generateOptimizedImageUrl
       (generateOptimizedImageUrl cloudinaryUrl options) options
     = generateOptimizedImageUrl cloudinaryUrl options
  /\ generateLQIPUrl (generateLQIPUrl cloudinaryUrl)
     = generateLQIPUrl cloudinaryUrl
  /\ generateLQIPUrl (generateOptimizedImageUrl cloudinaryUrl options)
     = generateLQIPUrl cloudinaryUrl.
Proof.
  assert (H1 : baseUrl (generateOptimizedImageUrl cloudinaryUrl options)
               = baseUrl cloudinaryUrl) by apply baseUrl_query.
  assert (H2 : baseUrl (generateLQIPUrl cloudinaryUrl) = baseUrl cloudinaryUrl)
    by apply baseUrl_query.
  split_and!; [done|done|..].
  - unfold generateOptimizedImageUrl at 1. by rewrite H1.
  - unfold generateLQIPUrl at 1. by rewrite H2.
  - unfold generateLQIPUrl at 1. by rewrite H1.
Qed.

End ImageUrls.

(** * Failures that are not retried *)

Section RetryMore.

Import client useGalleryImagesInfinite.

Local Open Scope string_scope.

(** A client error (status 400 to 499) whose body gives no message of its
    own, so that the error carries the status line, is never retried,
    whatever the number of failures so far: the status line holds the digit
    that [retry] looks for. *)
Theorem status_line_client_error_is_not_retried (status : N)
    (statusText : string) (body : ErrorBody) (failureCount : Z) :
  is4xx status = true ->
  errorMessage status statusText body = statusMessage status statusText ->
  exists message,
    fetchGalleryImages (NotOk status statusText body)
    = inr (ErrorObject message)
    /\ retry failureCount (ErrorObject message) = false.
Proof.
  intros H4 Hbody. eexists. split; [done|].
  unfold rethrow, retry. rewrite Hbody.
  by rewrite includes_app_r by by apply status_line_4xx.
Qed.

Lemma status_line_client_error_is_not_retried_witness :
  exists message,
    fetchGalleryImages (NotOk 404 "Not Found" NotJson)
    = inr (ErrorObject message)
    /\ retry 0 (ErrorObject message) = false.
Proof.
  apply (status_line_client_error_is_not_retried 404 "Not Found" NotJson 0);
    reflexivity.
Defined.

End RetryMore.
